(** * RoArm step/sequence engine (roarm_v6.py): shallow embedding and properties

    The embedding follows [src/roarm_v6.py]:
    - [StateResult], [RobotPose], [make_t102_command]          (lines 9-31)
    - [_send_command]                                          (lines 44-66)
    - [SimpleRobotState], [PoseState]                          (lines 69-94)
    - [DropoffSelectionState], [WaitForInputState]             (lines 97-158)
    - pose tables and [create_state_registry]                  (lines 161-240)
    - [StateMachine]: [add_state], [add_states_from_sequence], [run]
                                                               (lines 243-317)

    Python effects are threaded through a small state-and-exception monad
    over a [World]: the machine's mutable [self.states] list, the object
    allocator, the cursors into the two external oracles (the HTTP peer and
    the operator console), and a chronological event log.

    Conventions:
    - floats are IEEE binary64 values, as in Python;
    - console lines are strings of code points below 256;
    - of the console output only the unknown-state warning is logged; the
      banners and progress lines do not influence control flow;
    - the environment raises only from [session.get] and [input()];
      [time.sleep] raises on the lengths it refuses;
    - the [while] loop of [run] need not terminate, so it carries fuel. *)

From Stdlib Require Import ZArith List String Ascii Floats Bool Lia.
From stdpp Require Import gmap strings list.

Set Warnings "-inexact-float".
Local Open Scope string_scope.
Local Open Scope list_scope.

(** ** Outcomes *)

(** [class StateResult(Enum)]. *)
Inductive StateResult := SUCCESS | FAILURE | ABORT.

(** [execute] is annotated [-> StateResult] but two steps also return plain
    strings (["REPEAT"], or the selected dropoff key); the runner compares
    the returned object against both kinds. *)
Inductive result :=
| Enum (r : StateResult)
| Str (s : string).

Definition StateResult_eqb (a b : StateResult) : bool :=
  match a, b with
  | SUCCESS, SUCCESS | FAILURE, FAILURE | ABORT, ABORT => true
  | _, _ => false
  end.

(** Python [==] between two returned objects: an enum member only equals
    itself, a str equals an equal str, the two kinds never compare equal. *)
Definition result_eqb (a b : result) : bool :=
  match a, b with
  | Enum x, Enum y => StateResult_eqb x y
  | Str s, Str t => String.eqb s t
  | _, _ => false
  end.

(** ** Poses and command payloads *)

Record RobotPose := mkRobotPose {
  base : float; shoulder : float; elbow : float;
  wrist : float; roll : float; hand : float }.

(** The payload is the f-string of [make_t102_command]; it is determined by
    the pose, [spd] and [acc], and is kept symbolic (the decimal rendering of
    the joint values plays no role in the engine). *)
Inductive command_str :=
| T102 (pose : RobotPose) (spd acc : Z).

Definition make_t102_command (pose : RobotPose) (spd acc : Z) : command_str :=
  T102 pose spd acc.

(** ** Python exceptions seen by the engine *)

Inductive exn :=
| ReqConnectTimeout      (* requests.exceptions.ConnectTimeout *)
| ReqReadTimeout         (* requests.exceptions.ReadTimeout *)
| ReqConnectionError     (* connection refused, DNS failure, ... *)
| ReqInvalidURL          (* malformed request *)
| ReqOther               (* any other RequestException *)
| OtherException         (* any other subclass of Exception *)
| EOFError
| IndexError
| KeyError
| OverflowError
| ValueError
| KeyboardInterrupt.     (* a BaseException, not an Exception *)

(** [isinstance(e, requests.exceptions.Timeout)] *)
Definition is_Timeout (e : exn) : bool :=
  match e with ReqConnectTimeout | ReqReadTimeout => true | _ => false end.

(** [isinstance(e, requests.exceptions.RequestException)] *)
Definition is_RequestException (e : exn) : bool :=
  match e with
  | ReqConnectTimeout | ReqReadTimeout | ReqConnectionError
  | ReqInvalidURL | ReqOther => true
  | _ => false
  end.

(** [isinstance(e, Exception)] *)
Definition is_Exception (e : exn) : bool :=
  match e with KeyboardInterrupt => false | _ => true end.

(** ** Steps *)

(** The three concrete subclasses of [RobotState].  [PoseState] only
    overrides the constructor, so it is a smart constructor below. *)
Inductive RobotState :=
| SimpleRobotState (name : string) (commands : list (command_str * float))
| DropoffSelectionState (name : string) (dropoff_map : gmap string string)
| WaitForInputState (name : string).

Definition PoseState (name : string) (poses : list (RobotPose * float))
    (acc : Z) : RobotState :=
  SimpleRobotState name
    (map (fun pd => (make_t102_command (fst pd) 0 acc, snd pd)) poses).

(** A constructed step object: the value together with its identity. *)
Record Obj := mkObj { oid : nat; ostate : RobotState }.

(** ** The world *)

(** What the HTTP peer does on one [session.get], and what the console does
    on one [input()]. *)
Inductive get_outcome := Response (text : string) | GetRaises (e : exn).
Inductive input_outcome := Line (s : string) | InputRaises (e : exn).

Record Env := mkEnv {
  net : nat -> get_outcome;        (* outcome of the n-th request *)
  console : nat -> input_outcome   (* outcome of the n-th [input()] *)
}.

Inductive event :=
| EvGet (ip : string) (cmd : command_str)   (* session.get(url, timeout=0.2) *)
| EvSleep (d : float)                       (* time.sleep(d) *)
| EvWarnUnknown (name : string)             (* "Unknown state ... skipping" *)
| EvExecute (o : nat)                       (* state.execute on object o *)
| EvClose.                                  (* self.session.close() *)

Record World := mkWorld {
  states : list Obj;     (* self.states *)
  next_oid : nat;        (* identity of the next constructed object *)
  gets : nat;            (* requests issued so far *)
  reads : nat;           (* console reads so far *)
  log : list event       (* effects so far, oldest first *)
}.

(** ** The monad *)

Inductive res (A : Type) := Ok (a : A) | Raise (e : exn).
Arguments Ok {A} a.
Arguments Raise {A} e.

Definition M (A : Type) : Type := World -> res A * World.

Definition ret {A} (a : A) : M A := fun w => (Ok a, w).

Definition bind {A B} (c : M A) (k : A -> M B) : M B :=
  fun w => match c w with
           | (Ok a, w') => k a w'
           | (Raise e, w') => (Raise e, w')
           end.

Definition raise {A} (e : exn) : M A := fun w => (Raise e, w).

(** [try: c  except ...: h e] where [h] re-raises what it does not catch. *)
Definition try_except {A} (c : M A) (h : exn -> M A) : M A :=
  fun w => match c w with
           | (Ok a, w') => (Ok a, w')
           | (Raise e, w') => h e w'
           end.

(** [try: c  finally: f] *)
Definition try_finally {A} (c : M A) (f : M unit) : M A :=
  fun w => match c w with
           | (r, w') => match f w' with
                        | (Ok _, w'') => (r, w'')
                        | (Raise e, w'') => (Raise e, w'')
                        end
           end.

Notation "x <- c1 ;; c2" := (bind c1 (fun x => c2))
  (at level 100, c1 at next level, right associativity).
Notation "c1 ;;; c2" := (bind c1 (fun _ => c2))
  (at level 100, right associativity).

Definition emit (e : event) : M unit :=
  fun w => (Ok tt, mkWorld (states w) (next_oid w) (gets w) (reads w)
                           (log w ++ [e])).

(** ** Python list indexing and insertion with a signed index *)

(** [l[i]]: negative indices count from the end; out of range is IndexError
    (here [None]). *)
Definition py_index {A} (l : list A) (i : Z) : option A :=
  let n := Z.of_nat (length l) in
  if (0 <=? i)%Z then l !! Z.to_nat i
  else if (- n <=? i)%Z then l !! Z.to_nat (n + i)
  else None.

(** [l.insert(i, x)]: a negative index is shifted by the length and clamped
    to 0, an index past the end is clamped to the length. *)
Definition py_insert {A} (l : list A) (i : Z) (x : A) : list A :=
  let n := Z.of_nat (length l) in
  let j := if (i <? 0)%Z then Z.max 0 (i + n) else Z.min i n in
  take (Z.to_nat j) l ++ x :: drop (Z.to_nat j) l.

(** ** [str.lower] and [str.strip] on code points below 256 *)

Definition lower_char (c : ascii) : ascii :=
  let n := N_of_ascii c in
  if ((65 <=? n) && (n <=? 90) || (192 <=? n) && (n <=? 214)
      || (216 <=? n) && (n <=? 222))%N
  then ascii_of_N (n + 32) else c.

Fixpoint lower (s : string) : string :=
  match s with
  | EmptyString => EmptyString
  | String c r => String (lower_char c) (lower r)
  end.

Definition isspace (c : ascii) : bool :=
  let n := N_of_ascii c in
  ((9 <=? n) && (n <=? 13) || (28 <=? n) && (n <=? 32)
   || (n =? 133) || (n =? 160))%N.

Fixpoint lstrip (s : string) : string :=
  match s with
  | EmptyString => EmptyString
  | String c r => if isspace c then lstrip r else s
  end.

Fixpoint rstrip (s : string) : string :=
  match s with
  | EmptyString => EmptyString
  | String c r =>
      match rstrip r with
      | EmptyString => if isspace c then EmptyString else String c EmptyString
      | r' => String c r'
      end
  end.

Definition strip (s : string) : string := rstrip (lstrip s).

(** ** World primitives *)

Section Engine.

Variable env : Env.

(** [session.get(url, timeout=0.2)]: the request is issued, then the peer
    answers or the call raises. *)
Definition session_get (ip : string) (cmd : command_str) : M string :=
  fun w =>
    let w' := mkWorld (states w) (next_oid w) (S (gets w)) (reads w)
                      (log w ++ [EvGet ip cmd]) in
    match net env (gets w) with
    | Response text => (Ok text, w')
    | GetRaises e => (Raise e, w')
    end.

(** [input(prompt)] *)
Definition input : M string :=
  fun w =>
    let w' := mkWorld (states w) (next_oid w) (gets w) (S (reads w)) (log w) in
    match console env (reads w) with
    | Line s => (Ok s, w')
    | InputRaises e => (Raise e, w')
    end.

(** [time.sleep(d)] for a float [d] (CPython 3.11, [time_sleep] over
    [pytime_from_double]): the length is turned into a whole number of
    nanoseconds, [d * 1e9] rounded away from zero.  NaN raises ValueError;
    a length outside the signed 64-bit range raises OverflowError; a
    negative length raises ValueError; anything else sleeps.  At and above
    2^53 every double is a whole number, so the upper range check is the
    comparison of [d * 1e9] with 2^63.  The cases are ordered by the sign
    of [d], the positive one first: it is the only one [_send_command] can
    reach. *)
Definition fits_ns (d : float) : bool :=
  (d * 1e9 <? 9223372036854775808)%float.

Definition sleep (d : float) : M unit :=
  if (0 <? d)%float then
    if fits_ns d then emit (EvSleep d) else raise OverflowError
  else if (d =? 0)%float then emit (EvSleep d)
  else if (d <? 0)%float then
    if (-9223372036854775808 <=? d * 1e9)%float then raise ValueError
    else raise OverflowError
  else raise ValueError.

(** Calling a constructor: the new object gets an identity no earlier
    object has. *)
Definition construct (s : RobotState) : M Obj :=
  fun w => (Ok (mkObj (next_oid w) s),
            mkWorld (states w) (S (next_oid w)) (gets w) (reads w) (log w)).

Definition get_states : M (list Obj) := fun w => (Ok (states w), w).

Definition set_states (l : list Obj) : M unit :=
  fun w => (Ok tt, mkWorld l (next_oid w) (gets w) (reads w) (log w)).

(** ** [RobotState._send_command] *)

Definition _send_command (ip : string) (command : command_str)
    (delay : float) : M StateResult :=
  try_except
    (response <- session_get ip command ;;
     (if (0 <? delay)%float then sleep delay else ret tt) ;;;
     ret SUCCESS)
    (fun e =>
       if is_Timeout e then ret SUCCESS
       else if is_RequestException e then ret FAILURE
       else if is_Exception e then ret FAILURE
       else raise e).

(** ** [SimpleRobotState.execute] *)

Fixpoint send_commands (ip : string) (commands : list (command_str * float))
    : M StateResult :=
  match commands with
  | [] => ret SUCCESS
  | (command, delay) :: rest =>
      r <- _send_command ip command delay ;;
      match r with
      | SUCCESS => send_commands ip rest
      | _ => ret r
      end
  end.

(** ** [DropoffSelectionState.execute] *)

Definition execute_dropoff (dropoff_map : gmap string string) : M result :=
  try_except
    (line <- input ;;
     let user_input := strip (lower line) in
     if String.eqb user_input "s" then ret (Enum SUCCESS)
     else if String.eqb user_input "a" then ret (Enum ABORT)
     else match dropoff_map !! user_input with
          | Some _ => ret (Str user_input)
          | None => ret (Enum FAILURE)
          end)
    (fun e =>
       match e with
       | KeyboardInterrupt | EOFError => ret (Enum ABORT)
       | _ => raise e
       end).

(** ** [WaitForInputState.execute] *)

Definition execute_wait : M result :=
  try_except
    (line <- input ;;
     let user_input := strip (lower line) in
     if String.eqb user_input "s" then ret (Enum SUCCESS)
     else if String.eqb user_input "r" then ret (Str "REPEAT")
     else ret (Enum SUCCESS))
    (fun e =>
       match e with
       | KeyboardInterrupt | EOFError => ret (Enum ABORT)
       | _ => raise e
       end).

(** Dynamic dispatch of [state.execute(ip_addr, session)]. *)
Definition execute (st : RobotState) (ip : string) : M result :=
  match st with
  | SimpleRobotState _ commands =>
      r <- send_commands ip commands ;; ret (Enum r)
  | DropoffSelectionState _ dropoff_map => execute_dropoff dropoff_map
  | WaitForInputState _ => execute_wait
  end.

(** ** [StateMachine] *)

(** The fields fixed at construction; [self.states] lives in the [World]. *)
Record StateMachine := mkStateMachine {
  ip_addr : string;
  state_registry : gmap string (unit -> RobotState)
}.

Variable self : StateMachine.

Definition add_state (state : Obj) : M unit :=
  l <- get_states ;; set_states (l ++ [state]).

Fixpoint add_states_from_sequence (sequence : list string) : M unit :=
  match sequence with
  | [] => ret tt
  | state_name :: rest =>
      match state_registry self !! state_name with
      | Some factory => (o <- construct (factory tt) ;; add_state o)
      | None => emit (EvWarnUnknown state_name)
      end ;;;
      add_states_from_sequence rest
  end.

(** Build a Python dict from a literal: later bindings win. *)
Definition dict_of {V} (l : list (string * V)) : gmap string V :=
  foldl (fun m kv => <[fst kv := snd kv]> m) ∅ l.

(** The local [dropoff_mapping] of [run]. *)
Definition dropoff_mapping : gmap string string :=
  dict_of [("1", "MiddleDropoff"); ("2", "FrontDropoff");
           ("3", "BackDropoff"); ("4", "FarMiddle")].

(** [result in dropoff_mapping], then [dropoff_mapping[result]]; an enum
    member is hashable and is simply not a key. *)
Definition in_dropoff_mapping (r : result) : option string :=
  match r with
  | Str s => dropoff_mapping !! s
  | Enum _ => None
  end.

(** How a run ends when it ends without a propagating exception. *)
Inductive ending := Completed | Aborted | Failed | Interrupted.

(** What one pass through the loop body decides. *)
Inductive control := Next (i : Z) | Halt (e : ending).

(** One pass through the body of [while i < len(self.states)]. *)
Definition loop_body (i : Z) : M control :=
  l <- get_states ;;
  match py_index l i with
  | None => raise IndexError
  | Some state =>
      emit (EvExecute (oid state)) ;;;
      r <- execute (ostate state) (ip_addr self) ;;
      if result_eqb r (Enum SUCCESS) then ret (Next (i + 1))
      else if result_eqb r (Str "REPEAT") then ret (Next (i - 2))
      else match in_dropoff_mapping r with
           | Some dropoff_state_name =>
               match state_registry self !! dropoff_state_name with
               | None => raise KeyError
               | Some factory =>
                   o <- construct (factory tt) ;;
                   l' <- get_states ;;
                   set_states (py_insert l' (i + 1) o) ;;;
                   ret (Next (i + 1))
               end
           | None =>
               if result_eqb r (Enum ABORT) then ret (Halt Aborted)
               else ret (Halt Failed)
           end
  end.

Definition len_states (w : World) : Z := Z.of_nat (length (states w)).

(** The [while] loop, cut off after [fuel] passes ([None]: still running). *)
Fixpoint while_loop (fuel : nat) (i : Z) : M (option ending) :=
  fun w =>
    if (i <? len_states w)%Z then
      match fuel with
      | O => (Ok None, w)
      | S fuel' =>
          match loop_body i w with
          | (Ok (Next i'), w') => while_loop fuel' i' w'
          | (Ok (Halt e), w') => (Ok (Some e), w')
          | (Raise e, w') => (Raise e, w')
          end
      end
    else (Ok (Some Completed), w).

(** The [try] / [except KeyboardInterrupt] / [finally: self.session.close()]
    that [run] wraps around its loop. *)
Definition guarded (c : M (option ending)) : M (option ending) :=
  try_finally
    (try_except c
       (fun e =>
          match e with
          | KeyboardInterrupt => ret (Some Interrupted)
          | _ => raise e
          end))
    (emit EvClose).

(** [StateMachine.run]: the cursor starts at 0. *)
Definition run (fuel : nat) : M (option ending) :=
  guarded (while_loop fuel 0%Z).

(** The loop states a run passes through: it starts at cursor 0 and each
    pass of the body that asks for another pass yields the next one. *)
Inductive reachable (w0 : World) : World -> Z -> Prop :=
| reach_start : reachable w0 w0 0%Z
| reach_step w i w' i' :
    reachable w0 w i ->
    (i <? len_states w)%Z = true ->
    loop_body i w = (Ok (Next i'), w') ->
    reachable w0 w' i'.

End Engine.

(** ** Pose tables and the registry *)

Local Open Scope float_scope.

Definition HOME_POSE : RobotPose :=
  mkRobotPose 1.553922538 (-0.113514578) 2.406815856 0.905048665 (-0.076699039) 2.664524629.

Definition LEFT_PICKUP_POSES : list (RobotPose * float) := [
  (mkRobotPose 1.553922538 (-0.113514578) 2.406815856 0.905048665 (-0.076699039) 2.664524629, 0.42);
  (mkRobotPose 1.279339977 0.230097118 2.58935957 0.527689391 (-0.216291563) 2.553320765, 0.3);
  (mkRobotPose 1.290077843 0.176407791 2.658388705 0.40803889 (-0.260776734) 3.183301384, 0.15);
  (mkRobotPose 1.412971055 (-0.159534002) 2.370000317 1.015495282 (-0.234699332) 3.126252846, 0.14) ].

Definition MIDDLE_DROPOFF_POSES : list (RobotPose * float) := [
  (mkRobotPose 0.401902966 0.110446617 2.311709047 0.852893318 (-1.202640938) 3.046485845, 0.55);
  (mkRobotPose 0.348213639 0.059825251 2.126097372 1.113670052 (-1.225650921) 2.536621726, 0.14) ].

Definition FRONT_DROPOFF_POSES : list (RobotPose * float) := [
  (mkRobotPose 0.584776797 0.335941793 1.960427447 1.11060209 (-0.741864204) 3.051087787, 0.62);
  (mkRobotPose 0.584776797 0.335941793 1.960427447 1.11060209 (-0.741864204) 2.551087787, 0.17);
  (mkRobotPose 0.635689412 0.141126232 2.034058525 1.086058398 (-0.889708857) 2.758097457, 0.27) ].

Definition BACK_DROPOFF_POSES : list (RobotPose * float) := [
  (mkRobotPose (-0.09817477) 0.018407769 2.205922623 1.063048686 (-1.659767484) 3.224835364, 0.95);
  (mkRobotPose (-0.09817477) 0.018407769 2.205922623 1.063048686 (-1.659767484) 2.536621726, 0.175) ].

Definition PUSH_OFF_POSES : list (RobotPose * float) := [
  (mkRobotPose 0.931126338 0.352815581 1.684310905 0.975029284 (-0.878971263) 2.721650903, 0.125);
  (mkRobotPose 0.920388473 0.415708794 1.998776967 0.65761176 (-0.878971263) 3.121650903, 0.23);
  (mkRobotPose (-0.403436947) 0.181009733 2.462039165 0.559902988 (-1.67165101) 3.118582942, 0.5) ].

Definition PUSH_ON_HALF_POSES : list (RobotPose * float) := [
  (mkRobotPose (-0.242368964) (-0.073631078) 2.02485464 1.283941919 (-0.302194215) 3.118582942, 0.01);
  (mkRobotPose 0.862097203 0.162601964 1.681242944 1.374446786 0.776194279 3.113980999, 0.28) ].

Definition PUSH_ON_FULL_POSES : list (RobotPose * float) := [
  (mkRobotPose 1.141281706 0.794602048 0.682621451 1.529378846 1.038504993 3.106311095, 1.6);
  (mkRobotPose 1.224116669 0.849825356 0.957204012 1.222582688 1.199572976 3.092505268, 0.7);
  (mkRobotPose 1.113670052 0.656543777 1.435806017 1.135145783 1.12900986 3.112447019, 0.2);
  (mkRobotPose 0.882038953 0.460194236 1.94662162 0.960271973 0.983281685 3.121650903, 0.2);
  (mkRobotPose 0.883572934 0.274582561 1.702718675 1.288543862 0.912718569 3.113980999, 0.35) ].

Definition BACK_PUSH_POSES : list (RobotPose * float) := [
  (mkRobotPose 1.141281706 0.794602048 0.682621451 1.529378846 1.038504993 3.106311095, 0.52);
  (mkRobotPose 1.224116669 0.849825356 0.957204012 1.222582688 1.199572976 3.092505268, 0.15);
  (mkRobotPose 1.113670052 0.656543777 1.435806017 1.135145783 1.12900986 3.112447019, 0.135);
  (mkRobotPose 0.882038953 0.460194236 1.94662162 0.960271973 0.983281685 3.121650903, 0.1);
  (mkRobotPose 0.883572934 0.274582561 1.702718675 1.288543862 0.912718569 3.113980999, 0.25) ].

Definition FAR_MIDDLE_POSES : list (RobotPose * float) := [
  (mkRobotPose 1.093728302 0.608990373 1.049242859 1.500233211 (-0.549165122) 3.117048961, 2.5);
  (mkRobotPose 1.093728302 0.608990373 1.049242859 1.500233211 (-0.549165122) 2.517048961, 0.5) ].

Definition HOME_POSES : list (RobotPose * float) := [(HOME_POSE, 0.1)].

Local Close Scope float_scope.

(** The dropoff menu of the registered ["SelectDropoff"] step. *)
Definition select_dropoff_map : gmap string string :=
  dict_of [("1", "Middle Dropoff"); ("2", "Front Dropoff");
           ("3", "Back Dropoff"); ("4", "Far Middle Dropoff")].

(** [create_state_registry()]: name to zero-argument factory. *)
Definition create_state_registry : gmap string (unit -> RobotState) :=
  dict_of [
    ("Home", fun _ => PoseState "Home" HOME_POSES 255);
    ("LeftPickup", fun _ => PoseState "Left Pickup" LEFT_PICKUP_POSES 255);
    ("MiddleDropoff", fun _ => PoseState "Middle Dropoff" MIDDLE_DROPOFF_POSES 255);
    ("FrontDropoff", fun _ => PoseState "Front Dropoff" FRONT_DROPOFF_POSES 255);
    ("BackDropoff", fun _ => PoseState "Back Dropoff" BACK_DROPOFF_POSES 255);
    ("PushOff", fun _ => PoseState "Push Off" PUSH_OFF_POSES 255);
    ("PushOnHalf", fun _ => PoseState "Push On" PUSH_ON_HALF_POSES 255);
    ("PushOnFull", fun _ => PoseState "Push On" PUSH_ON_FULL_POSES 255);
    ("BackPush", fun _ => PoseState "Back Push" BACK_PUSH_POSES 255);
    ("FarMiddle", fun _ => PoseState "Far Middle Dropoff" FAR_MIDDLE_POSES 255);
    ("Wait", fun _ => WaitForInputState "Wait For Input");
    ("SelectDropoff", fun _ => DropoffSelectionState "Select Dropoff" select_dropoff_map)
  ].

(** [main]: the machine over the full registry, before any state is added. *)
Definition main_sequence : list string :=
  ["Home"; "LeftPickup"; "SelectDropoff"; "PushOff"; "Home"].

Definition machine (ip : string) : StateMachine :=
  mkStateMachine ip create_state_registry.

Definition world0 : World := mkWorld [] 0 0 0 [].

(** Scripted oracles for concrete runs. *)
Definition always_responds : nat -> get_outcome := fun _ => Response "ok".

Definition typed (lines : list string) : nat -> input_outcome :=
  fun n => match lines !! n with
           | Some s => Line s
           | None => InputRaises EOFError
           end.

Definition answers (l : list get_outcome) : nat -> get_outcome :=
  fun n => match l !! n with Some o => o | None => Response "ok" end.

(** ** Observations on the event log *)

(** The payloads dispatched, in order. *)
Fixpoint sent (l : list event) : list command_str :=
  match l with
  | [] => []
  | EvGet _ cmd :: r => cmd :: sent r
  | _ :: r => sent r
  end.

(** The pacing delays waited, in order. *)
Fixpoint slept (l : list event) : list float :=
  match l with
  | [] => []
  | EvSleep d :: r => d :: slept r
  | _ :: r => slept r
  end.

(** The identities of the objects whose [execute] was called, in order. *)
Fixpoint executed (l : list event) : list nat :=
  match l with
  | [] => []
  | EvExecute o :: r => o :: executed r
  | _ :: r => executed r
  end.


Definition send_fails (o : get_outcome) : bool :=
  match o with
  | Response _ => false
  | GetRaises e => negb (is_Timeout e) && is_Exception e
  end.

(** The world after one [_send_command] that did not propagate: one more
    request issued, and the pacing delay waited when [pause] is set. *)
Definition after_send (ip : string) (cmd : command_str) (w : World) (delay : float) (pause : bool) : World :=
  mkWorld (states w) (next_oid w) (S (gets w)) (reads w)
          (log w ++ EvGet ip cmd :: (if pause then [EvSleep delay] else [])).

(** What [input()] leaves behind: one more console read, nothing else. *)
Definition after_input (w : World) : World :=
  mkWorld (states w) (next_oid w) (gets w) (S (reads w)) (log w).

(** The world when [execute] is entered on object [o]. *)
Definition started (w : World) (o : nat) : World :=
  mkWorld (states w) (next_oid w) (gets w) (reads w) (log w ++ [EvExecute o]).

(** The registered names of a sequence instantiated in order, and the
    names that are not registered, in order. *)
Fixpoint known_states (reg : gmap string (unit -> RobotState))
    (sequence : list string) : list RobotState :=
  match sequence with
  | [] => []
  | n :: r =>
      match reg !! n with
      | Some factory => factory tt :: known_states reg r
      | None => known_states reg r
      end
  end.

Fixpoint unknown_names (reg : gmap string (unit -> RobotState))
    (sequence : list string) : list string :=
  match sequence with
  | [] => []
  | n :: r =>
      match reg !! n with
      | Some _ => unknown_names reg r
      | None => n :: unknown_names reg r
      end
  end.

(** Objects constructed one after the other, the first with identity [n]. *)
Fixpoint number_from (n : nat) (l : list RobotState) : list Obj :=
  match l with
  | [] => []
  | s :: r => mkObj n s :: number_from (S n) r
  end.

(** Identities in use were handed out by the allocator. *)
Definition allocated (w : World) : Prop :=
  Forall (fun o => oid o < next_oid w) (states w) /\
  Forall (fun n => n < next_oid w) (executed (log w)).

(** What the loop body does once [execute] has returned [r]. *)
Definition after_execute (self : StateMachine) (i : Z) (r : result)
    : M control :=
  if result_eqb r (Enum SUCCESS) then ret (Next (i + 1))
  else if result_eqb r (Str "REPEAT") then ret (Next (i - 2))
  else match in_dropoff_mapping r with
       | Some dropoff_state_name =>
           match state_registry self !! dropoff_state_name with
           | None => raise KeyError
           | Some factory =>
               o <- construct (factory tt) ;;
               l' <- get_states ;;
               set_states (py_insert l' (i + 1) o) ;;;
               ret (Next (i + 1))
           end
       | None =>
           if result_eqb r (Enum ABORT) then ret (Halt Aborted)
           else ret (Halt Failed)
       end.

(** The world after a step object built by [factory] was injected at
    list index [i + 1]. *)
Definition injected (w : World) (i : Z) (factory : unit -> RobotState)
    : World :=
  mkWorld (py_insert (states w) (i + 1) (mkObj (next_oid w) (factory tt)))
          (S (next_oid w)) (gets w) (reads w) (log w).

(** [w'] differs from [w] only in what a step may touch. *)
Definition same_machine (w w' : World) : Prop :=
  states w' = states w /\ next_oid w' = next_oid w /\
  executed (log w') = executed (log w).

(** Concrete set-ups: the device address of the usage text, the machine of
    [main] loaded with a given sequence, and scripted peers and operators. *)
Definition ip0 : string := "192.168.4.1".

Definition home_command : command_str := make_t102_command HOME_POSE 0 255.

Definition built (sequence : list string) : World :=
  snd (add_states_from_sequence (machine ip0) sequence world0).

Definition env_typed (lines : list string) : Env :=
  mkEnv always_responds (typed lines).

Definition env_timeout : Env :=
  mkEnv (fun _ => GetRaises ReqReadTimeout) (typed []).


(** What one [_send_command] returns, as a function of the number of
    requests issued before it and of its delay. *)
Definition dispatch (env : Env) (n : nat) (delay : float)
    : res StateResult :=
  match net env n with
  | Response _ =>
      if (0 <? delay)%float
      then if fits_ns delay then Ok SUCCESS else Ok FAILURE
      else Ok SUCCESS
  | GetRaises e =>
      if is_Timeout e then Ok SUCCESS
      else if is_Exception e then Ok FAILURE
      else Raise e
  end.


(** ** Further vocabulary for statements about whole steps and runs *)







(** ASCII capital letters, and strings without any. *)
Definition is_upper (c : ascii) : bool :=
  let n := N_of_ascii c in ((65 <=? n) && (n <=? 90))%N.

Fixpoint no_upper (s : string) : bool :=
  match s with
  | EmptyString => true
  | String c r => negb (is_upper c) && no_upper r
  end.



(** The world once [self.session.close()] has run. *)
Definition closed (w : World) : World :=
  mkWorld (states w) (next_oid w) (gets w) (reads w) (log w ++ [EvClose]).

(** [w'] has the log of [w] plus further events, none of them a close. *)
Definition extends_open (w w' : World) : Prop :=
  exists l, log w' = log w ++ l /\ ~ In EvClose l.

(** How [run] ends when the step at the cursor returned [r] and [r] asks
    for no further pass. *)
Definition ending_of (r : result) : ending :=
  match r with
  | Enum ABORT => Aborted
  | _ => Failed
  end.



Definition machine_select_only : StateMachine :=
  mkStateMachine ip0
    (dict_of [("SelectDropoff",
               fun _ => DropoffSelectionState "Select Dropoff"
                          select_dropoff_map)]).

Definition machine_own_key : StateMachine :=
  mkStateMachine ip0
    (dict_of [("Pick",
               fun _ => DropoffSelectionState "Pick"
                          (dict_of [("5", "Fifth")]))]).

Definition left_pickup_commands : list (command_str * float) :=
  map (fun pd => (make_t102_command (fst pd) 0 255, snd pd)) LEFT_PICKUP_POSES.

(** * Properties *)

(** ** Log observations distribute over append *)

Lemma sent_app l1 l2 : sent (l1 ++ l2) = sent l1 ++ sent l2.
Proof.
  induction l1 as [|e l1 IH]; simpl; [reflexivity|].
  destruct e; simpl; rewrite IH; reflexivity.
Qed.

Lemma executed_app l1 l2 : executed (l1 ++ l2) = executed l1 ++ executed l2.
Proof.
  induction l1 as [|e l1 IH]; simpl; [reflexivity|].
  destruct e; simpl; rewrite IH; reflexivity.
Qed.

(** ** The dispatcher *)

Section Dispatcher.

Variable env : Env.
Variables (ip : string) (cmd : command_str).

(** On a positive length [sleep] only depends on the range check. *)
Lemma sleep_positive d w :
  (0 <? d)%float = true ->
  sleep d w = if fits_ns d then emit (EvSleep d) w else (Raise OverflowError, w).
Proof. intros H. unfold sleep. rewrite H. destruct (fits_ns d); reflexivity. Qed.

(** Complete description of [_send_command] by cases on the peer and on
    the delay. *)
Lemma send_command_cases delay w :
  _send_command env ip cmd delay w =
  match net env (gets w) with
  | Response _ =>
      if (0 <? delay)%float then
        if fits_ns delay
        then (Ok SUCCESS, after_send ip cmd w delay true)
        else (Ok FAILURE, after_send ip cmd w delay false)
      else (Ok SUCCESS, after_send ip cmd w delay false)
  | GetRaises e =>
      if is_Timeout e then (Ok SUCCESS, after_send ip cmd w delay false)
      else if is_Exception e then (Ok FAILURE, after_send ip cmd w delay false)
      else (Raise e, after_send ip cmd w delay false)
  end.
Proof.
  unfold _send_command, try_except, bind, session_get, after_send.
  destruct (net env (gets w)) as [text|e].
  - destruct (0 <? delay)%float eqn:Hpos.
    + rewrite sleep_positive by exact Hpos.
      destruct (fits_ns delay); simpl; rewrite <- ?app_assoc; reflexivity.
    + reflexivity.
  - destruct e; reflexivity.
Qed.

(** What [_send_command] returns only depends on how many requests were
    issued before it and on its delay; it always issues one request. *)
Lemma send_command_fst delay w :
  fst (_send_command env ip cmd delay w) = dispatch env (gets w) delay.
Proof.
  rewrite send_command_cases. unfold dispatch.
  destruct (net env (gets w)) as [text|e].
  - destruct (0 <? delay)%float; [destruct (fits_ns delay)|]; reflexivity.
  - destruct (is_Timeout e); [|destruct (is_Exception e)]; reflexivity.
Qed.

Lemma send_command_world delay w :
  exists pause,
    snd (_send_command env ip cmd delay w) = after_send ip cmd w delay pause.
Proof.
  rewrite send_command_cases.
  destruct (net env (gets w)) as [text|e].
  - destruct (0 <? delay)%float; [destruct (fits_ns delay)|];
      eexists; reflexivity.
  - destruct (is_Timeout e); [|destruct (is_Exception e)];
      exists false; reflexivity.
Qed.


(** After a completed request with a positive delay that [time.sleep]
    accepts, the last thing [_send_command] does before returning SUCCESS
    is to sleep for exactly that delay; with a delay that is not positive it
    does not sleep; after a request timeout it returns SUCCESS without
    sleeping, whatever the delay. *)
Lemma send_command_pacing (delay : float) (w : World) :
  (forall text, net env (gets w) = Response text ->
     (0 <? delay)%float = true -> fits_ns delay = true ->
     _send_command env ip cmd delay w =
       (Ok SUCCESS,
        mkWorld (states w) (next_oid w) (S (gets w)) (reads w)
                (log w ++ [EvGet ip cmd; EvSleep delay]))) /\
  (forall text, net env (gets w) = Response text ->
     (0 <? delay)%float = false ->
     _send_command env ip cmd delay w =
       (Ok SUCCESS,
        mkWorld (states w) (next_oid w) (S (gets w)) (reads w)
                (log w ++ [EvGet ip cmd]))) /\
  (forall e, net env (gets w) = GetRaises e -> is_Timeout e = true ->
     _send_command env ip cmd delay w =
       (Ok SUCCESS,
        mkWorld (states w) (next_oid w) (S (gets w)) (reads w)
                (log w ++ [EvGet ip cmd]))).
Proof.
  rewrite send_command_cases. unfold after_send.
  split; [|split].
  - intros text -> -> ->. reflexivity.
  - intros text -> ->. reflexivity.
  - intros e -> ->. reflexivity.
Qed.

End Dispatcher.

(** ** The fixed multi-command step *)

Section FixedStep.

Variable env : Env.
Variable ip : string.


Lemma sent_after_send cmd w delay pause :
  sent (log (after_send ip cmd w delay pause)) = sent (log w) ++ [cmd].
Proof.
  unfold after_send; simpl. rewrite sent_app. simpl.
  destruct pause; reflexivity.
Qed.

(** One [_send_command], split into what it returns and what it leaves. *)
Lemma send_command_split cmd delay w :
  exists pause,
    _send_command env ip cmd delay w =
      (dispatch env (gets w) delay, after_send ip cmd w delay pause).
Proof.
  destruct (send_command_world env ip cmd delay w) as [pause Hw].
  exists pause. rewrite <- Hw, <- (send_command_fst env ip cmd).
  destruct (_send_command env ip cmd delay w); reflexivity.
Qed.

(** Every dispatch returns SUCCESS: the whole list goes out, in order. *)
Lemma send_commands_all_ok commands : forall w,
  (forall k c d, commands !! k = Some (c, d) ->
     dispatch env (gets w + k) d = Ok SUCCESS) ->
  let out := send_commands env ip commands w in
  fst out = Ok SUCCESS /\
  sent (log (snd out)) = sent (log w) ++ map fst commands /\
  gets (snd out) = gets w + length commands.
Proof.
  induction commands as [|[cmd delay] rest IH]; intros w Hok; simpl.
  - rewrite app_nil_r. repeat split; lia.
  - unfold bind.
    destruct (send_command_split cmd delay w) as [pause ->].
    pose proof (Hok 0 cmd delay eq_refl) as H0.
    rewrite Nat.add_0_r in H0. rewrite H0.
    destruct (IH (after_send ip cmd w delay pause)) as (Hr & Hs & Hg).
    { intros k c d Hk. simpl.
      replace (S (gets w + k)) with (gets w + S k) by lia.
      apply (Hok (S k) c d). exact Hk. }
    rewrite Hr, Hs, Hg, sent_after_send, <- app_assoc. simpl.
    repeat split. lia.
Qed.

(** The [K]-th dispatch is the first not to return SUCCESS: exactly the
    first [K] payloads go out and the step stops there with what that
    dispatch returned or raised. *)
Lemma send_commands_stops commands (r : res StateResult) : forall K w,
  r <> Ok SUCCESS ->
  1 <= K <= length commands ->
  (forall k c d, k < K - 1 -> commands !! k = Some (c, d) ->
     dispatch env (gets w + k) d = Ok SUCCESS) ->
  (forall c d, commands !! (K - 1) = Some (c, d) ->
     dispatch env (gets w + (K - 1)) d = r) ->
  let out := send_commands env ip commands w in
  fst out = r /\
  sent (log (snd out)) = sent (log w) ++ take K (map fst commands) /\
  gets (snd out) = gets w + K.
Proof.
  intros K w Hr. revert K w.
  induction commands as [|[cmd delay] rest IH]; intros K w HK Hok Hstop;
    simpl in *; [lia|].
  unfold bind. destruct (send_command_split cmd delay w) as [pause ->].
  destruct (Nat.eq_dec K 1) as [->|HK1].
  - specialize (Hstop cmd delay eq_refl). simpl in Hstop.
    rewrite Nat.add_0_r in Hstop. rewrite Hstop.
    assert (Hgets : gets (after_send ip cmd w delay pause) = gets w + 1)
      by (simpl; lia).
    destruct r as [[]|e]; try contradiction; unfold ret; cbn [fst snd];
      rewrite sent_after_send, ?take_0, Hgets; repeat split.
  - pose proof (Hok 0 cmd delay ltac:(lia) eq_refl) as H0.
    rewrite Nat.add_0_r in H0. rewrite H0.
    destruct (IH (K - 1) (after_send ip cmd w delay pause)) as (Hf & Hs & Hg).
    + lia.
    + intros k c d Hk Hl. simpl.
      replace (S (gets w + k)) with (gets w + S k) by lia.
      apply (Hok (S k) c d); [lia | exact Hl].
    + intros c d Hl. simpl.
      replace (S (gets w + (K - 1 - 1))) with (gets w + (K - 1)) by lia.
      apply (Hstop c d). destruct K as [|[|K']]; try lia.
      simpl in *. rewrite Nat.sub_0_r in Hl. exact Hl.
    + rewrite Hf, Hs, Hg, sent_after_send, <- app_assoc. simpl.
      destruct K as [|K']; [lia|]. simpl. rewrite Nat.sub_0_r.
      repeat split. lia.
Qed.

(** A hypothesis on what [_send_command] returns at the [k]-th dispatch,
    read as a fact about [dispatch]. *)
Lemma dispatch_of_send_command n c d r :
  (forall w', gets w' = n -> fst (_send_command env ip c d w') = r) ->
  dispatch env n d = r.
Proof.
  intros H. rewrite <- (H (mkWorld [] 0 n 0 [])) by reflexivity.
  rewrite send_command_fst. reflexivity.
Qed.

(** C4.  For a fixed step with commands [c1..cN] started when [gets w]
    requests have been issued, the [k]-th dispatch being the call of
    [_send_command] on the [k]-th command made when [gets w + k - 1]
    requests have been issued: if every dispatch returns SUCCESS, the
    payloads dispatched are exactly [c1..cN] in list order and the step
    returns SUCCESS; if the [K]-th dispatch is the first to return FAILURE,
    the payloads dispatched are exactly [c1..cK], exactly [K] requests are
    issued, and the step returns FAILURE. *)
Theorem fixed_step_dispatch (name : string)
    (commands : list (command_str * float)) (w : World) :
  let out := execute env (SimpleRobotState name commands) ip w in
  ((forall k c d w', commands !! k = Some (c, d) -> gets w' = gets w + k ->
      fst (_send_command env ip c d w') = Ok SUCCESS) ->
     fst out = Ok (Enum SUCCESS) /\
     sent (log (snd out)) = sent (log w) ++ map fst commands /\
     gets (snd out) = gets w + length commands) /\
  (forall K, 1 <= K <= length commands ->
     (forall k c d w', k < K - 1 -> commands !! k = Some (c, d) ->
        gets w' = gets w + k ->
        fst (_send_command env ip c d w') = Ok SUCCESS) ->
     (forall c d w', commands !! (K - 1) = Some (c, d) ->
        gets w' = gets w + (K - 1) ->
        fst (_send_command env ip c d w') = Ok FAILURE) ->
     fst out = Ok (Enum FAILURE) /\
     sent (log (snd out)) = sent (log w) ++ take K (map fst commands) /\
     gets (snd out) = gets w + K).
Proof.
  simpl. unfold bind. split.
  - intros Hok.
    destruct (send_commands_all_ok commands w) as (Hr & Hs & Hg).
    { intros k c d Hk. apply dispatch_of_send_command with (c := c).
      intros w' Hw'. eapply Hok; eauto. }
    destruct (send_commands env ip commands w) as [[r|e] w']; simpl in *;
      [|discriminate].
    injection Hr as ->. simpl. auto.
  - intros K HK Hok Hfail.
    destruct (send_commands_stops commands (Ok FAILURE) K w)
      as (Hr & Hs & Hg); [discriminate | exact HK | | |].
    { intros k c d Hk Hl. apply dispatch_of_send_command with (c := c).
      intros w' Hw'. eapply Hok; eauto. }
    { intros c d Hl. apply dispatch_of_send_command with (c := c).
      intros w' Hw'. eapply Hfail; eauto. }
    destruct (send_commands env ip commands w) as [[r|e] w']; simpl in *;
      [|discriminate].
    injection Hr as ->. simpl. auto.
Qed.

End FixedStep.

(** ** The selection step *)

Section SelectStep.

Variable env : Env.
Variable ip : string.

Lemma execute_dropoff_cases (dropoff_map : gmap string string) w :
  execute_dropoff env dropoff_map w =
  (match console env (reads w) with
   | Line line =>
       let user_input := strip (lower line) in
       if String.eqb user_input "s" then Ok (Enum SUCCESS)
       else if String.eqb user_input "a" then Ok (Enum ABORT)
       else match dropoff_map !! user_input with
            | Some _ => Ok (Str user_input)
            | None => Ok (Enum FAILURE)
            end
   | InputRaises KeyboardInterrupt | InputRaises EOFError => Ok (Enum ABORT)
   | InputRaises e => Raise e
   end, after_input w).
Proof.
  unfold execute_dropoff, try_except, bind, input, after_input.
  destruct (console env (reads w)) as [line|e].
  - simpl. destruct (String.eqb _ "s"); [reflexivity|].
    destruct (String.eqb _ "a"); [reflexivity|].
    destruct (dropoff_map !! _); reflexivity.
  - destruct e; reflexivity.
Qed.

(** C7.  The line read is lower-cased and stripped, then compared in this
    order: the skip token ["s"] yields SUCCESS, the abort token ["a"] yields
    ABORT, a key of the dropoff map yields that key, anything else yields
    FAILURE; end of input and a keyboard interrupt yield ABORT.  The step
    issues no request and leaves the log untouched. *)
Theorem select_step_outcomes (name : string)
    (dropoff_map : gmap string string) (w : World) :
  let out := execute env (DropoffSelectionState name dropoff_map) ip w in
  (forall line, console env (reads w) = Line line ->
     strip (lower line) = "s" -> fst out = Ok (Enum SUCCESS)) /\
  (forall line, console env (reads w) = Line line ->
     strip (lower line) = "a" -> fst out = Ok (Enum ABORT)) /\
  (forall line, console env (reads w) = Line line ->
     strip (lower line) <> "s" -> strip (lower line) <> "a" ->
     is_Some (dropoff_map !! strip (lower line)) ->
     fst out = Ok (Str (strip (lower line)))) /\
  (forall line, console env (reads w) = Line line ->
     strip (lower line) <> "s" -> strip (lower line) <> "a" ->
     dropoff_map !! strip (lower line) = None ->
     fst out = Ok (Enum FAILURE)) /\
  (console env (reads w) = InputRaises EOFError \/
   console env (reads w) = InputRaises KeyboardInterrupt ->
     fst out = Ok (Enum ABORT)) /\
  log (snd out) = log w /\ gets (snd out) = gets w.
Proof.
  simpl. rewrite execute_dropoff_cases. simpl.
  repeat split.
  - intros line -> ->. reflexivity.
  - intros line -> ->. reflexivity.
  - intros line -> Hs Ha [v Hv]. simpl.
    apply String.eqb_neq in Hs, Ha. rewrite Hs, Ha, Hv. reflexivity.
  - intros line -> Hs Ha Hv. simpl.
    apply String.eqb_neq in Hs, Ha. rewrite Hs, Ha, Hv. reflexivity.
  - intros [-> | ->]; reflexivity.
Qed.

End SelectStep.

(** ** The registry and the runner's branch table *)

Lemma select_dropoff_map_keys k :
  is_Some (select_dropoff_map !! k) -> k = "1" \/ k = "2" \/ k = "3" \/ k = "4".
Proof.
  unfold select_dropoff_map, dict_of. simpl. intros [v Hv].
  repeat (rewrite lookup_insert in Hv; case_decide; [subst; tauto|]).
  rewrite lookup_empty in Hv. discriminate.
Qed.

(** C10.  The registered ["SelectDropoff"] step is the selection step over
    the keys "1".."4"; each of its keys is a key of the runner's
    [dropoff_mapping], and the name it maps to is registered.  Hence
    whatever key that step returns resolves to a registered factory. *)
Theorem builtin_selection_resolves :
  (exists factory,
     create_state_registry !! "SelectDropoff" = Some factory /\
     factory tt = DropoffSelectionState "Select Dropoff" select_dropoff_map) /\
  (forall k, is_Some (select_dropoff_map !! k) ->
     exists dropoff_state_name factory,
       dropoff_mapping !! k = Some dropoff_state_name /\
       create_state_registry !! dropoff_state_name = Some factory) /\
  (forall env ip w k,
     fst (execute env (DropoffSelectionState "Select Dropoff" select_dropoff_map)
            ip w) = Ok (Str k) ->
     exists dropoff_state_name factory,
       in_dropoff_mapping (Str k) = Some dropoff_state_name /\
       create_state_registry !! dropoff_state_name = Some factory).
Proof.
  assert (Hkeys : forall k, is_Some (select_dropoff_map !! k) ->
     exists dropoff_state_name factory,
       dropoff_mapping !! k = Some dropoff_state_name /\
       create_state_registry !! dropoff_state_name = Some factory).
  { intros k Hk.
    destruct (select_dropoff_map_keys k Hk) as [-> | [-> | [-> | ->]]];
      eexists; eexists; split; vm_compute; reflexivity. }
  split; [|split].
  - eexists. split; vm_compute; reflexivity.
  - exact Hkeys.
  - intros env ip w k. simpl. rewrite execute_dropoff_cases. simpl.
    destruct (console env (reads w)) as [line|e].
    + destruct (String.eqb _ "s"); [discriminate|].
      destruct (String.eqb _ "a"); [discriminate|].
      destruct (select_dropoff_map !! strip (lower line)) eqn:E; [|discriminate].
      intros [= <-]. apply Hkeys. rewrite E. eauto.
    + destruct e; discriminate.
Qed.

(** ** Building the sequence *)

Lemma unknown_names_spec reg sequence n :
  In n (unknown_names reg sequence) <-> In n sequence /\ reg !! n = None.
Proof.
  induction sequence as [|m rest IH]; simpl; [tauto|].
  destruct (reg !! m) eqn:E; simpl; rewrite IH; split.
  - tauto.
  - intros [[-> | H] Hn]; [congruence | tauto].
  - intros [-> | H]; tauto.
  - tauto.
Qed.

Lemma add_states_from_sequence_cons (self : StateMachine)
    (n : string) (rest : list string) (w : World) :
  add_states_from_sequence self (n :: rest) w =
  add_states_from_sequence self rest
    (match state_registry self !! n with
     | Some factory =>
         mkWorld (states w ++ [mkObj (next_oid w) (factory tt)])
                 (S (next_oid w)) (gets w) (reads w) (log w)
     | None =>
         mkWorld (states w) (next_oid w) (gets w) (reads w)
                 (log w ++ [EvWarnUnknown n])
     end).
Proof.
  simpl. unfold bind at 1.
  destruct (state_registry self !! n) as [factory|]; reflexivity.
Qed.

Lemma add_states_from_sequence_spec (self : StateMachine)
    (sequence : list string) : forall w,
  let reg := state_registry self in
  let out := add_states_from_sequence self sequence w in
  fst out = Ok tt /\
  states (snd out) =
    states w ++ number_from (next_oid w) (known_states reg sequence) /\
  log (snd out) = log w ++ map EvWarnUnknown (unknown_names reg sequence) /\
  next_oid (snd out) = next_oid w + length (known_states reg sequence).
Proof.
  induction sequence as [|n rest IH]; intros w; cbv zeta.
  - simpl. rewrite !app_nil_r. repeat split. lia.
  - rewrite add_states_from_sequence_cons.
    match goal with |- context [add_states_from_sequence self rest ?w1] =>
      destruct (IH w1) as (H1 & H2 & H3 & H4) end.
    cbv zeta in *. rewrite H1, H2, H3, H4. simpl.
    destruct (state_registry self !! n) as [factory|]; simpl;
      rewrite <- ?app_assoc; simpl; repeat split; lia.
Qed.

(** C8.  [add_states_from_sequence] never raises.  It appends to
    [self.states] one freshly constructed object per registered name, in
    the order of the names, and reports each name that is not registered,
    in order, without adding anything for it. *)
Theorem add_states_skips_unknown (self : StateMachine)
    (sequence : list string) (w : World) :
  let reg := state_registry self in
  let out := add_states_from_sequence self sequence w in
  fst out = Ok tt /\
  states (snd out) =
    states w ++ number_from (next_oid w) (known_states reg sequence) /\
  log (snd out) = log w ++ map EvWarnUnknown (unknown_names reg sequence) /\
  next_oid (snd out) = next_oid w + length (known_states reg sequence) /\
  (forall n, In n (unknown_names reg sequence) <->
             In n sequence /\ reg !! n = None).
Proof.
  destruct (add_states_from_sequence_spec self sequence w)
    as (H1 & H2 & H3 & H4).
  simpl. split; [exact H1|]. split; [exact H2|]. split; [exact H3|].
  split; [exact H4|]. intros n. apply unknown_names_spec.
Qed.

Lemma number_from_allocated l : forall n,
  Forall (fun o => oid o < n + length l) (number_from n l).
Proof.
  induction l as [|s r IH]; intros n; simpl; constructor.
  - simpl. lia.
  - replace (n + S (length r)) with (S n + length r) by lia. apply IH.
Qed.

Lemma executed_warnings l : executed (map EvWarnUnknown l) = [].
Proof. induction l; simpl; auto. Qed.

(** A machine loaded by [add_states_from_sequence] only holds identities
    the allocator handed out; in particular the world a run starts in. *)
Lemma add_states_allocated (self : StateMachine) (sequence : list string) w :
  allocated w -> allocated (snd (add_states_from_sequence self sequence w)).
Proof.
  intros [Hs He].
  destruct (add_states_from_sequence_spec self sequence w)
    as (_ & H2 & H3 & H4).
  simpl in *. split; rewrite ?H2, ?H3, ?H4.
  - apply Forall_app. split.
    + eapply Forall_impl; [exact Hs|]. simpl. intros; lia.
    + apply number_from_allocated.
  - rewrite executed_app, executed_warnings, app_nil_r.
    eapply Forall_impl; [exact He|]. simpl. intros; lia.
Qed.

Lemma world0_allocated : allocated world0.
Proof. split; constructor. Qed.

(** ** Steps leave the sequence and the allocator alone *)

Section Frame.

Variable env : Env.
Variable ip : string.

Lemma same_machine_refl w : same_machine w w.
Proof. repeat split. Qed.

Lemma same_machine_trans w1 w2 w3 :
  same_machine w1 w2 -> same_machine w2 w3 -> same_machine w1 w3.
Proof. unfold same_machine. intros (?&?&?) (?&?&?). repeat split; congruence. Qed.

Lemma send_command_frame cmd delay w :
  same_machine w (snd (_send_command env ip cmd delay w)).
Proof.
  destruct (send_command_world env ip cmd delay w) as [b ->].
  repeat split. simpl. rewrite executed_app.
  destruct b; simpl; apply app_nil_r.
Qed.

Lemma send_commands_frame commands : forall w,
  same_machine w (snd (send_commands env ip commands w)).
Proof.
  induction commands as [|[cmd delay] rest IH]; intros w; simpl.
  - apply same_machine_refl.
  - unfold bind. pose proof (send_command_frame cmd delay w) as H.
    destruct (_send_command env ip cmd delay w) as [[r|e] w1]; simpl in *;
      [|exact H].
    destruct r; simpl; try exact H.
    eapply same_machine_trans; [exact H | apply IH].
Qed.

Lemma execute_wait_cases w :
  execute_wait env w =
  (match console env (reads w) with
   | Line line =>
       let user_input := strip (lower line) in
       if String.eqb user_input "s" then Ok (Enum SUCCESS)
       else if String.eqb user_input "r" then Ok (Str "REPEAT")
       else Ok (Enum SUCCESS)
   | InputRaises KeyboardInterrupt | InputRaises EOFError => Ok (Enum ABORT)
   | InputRaises e => Raise e
   end, after_input w).
Proof.
  unfold execute_wait, try_except, bind, input, after_input.
  destruct (console env (reads w)) as [line|e].
  - simpl. destruct (String.eqb _ "s"); [reflexivity|].
    destruct (String.eqb _ "r"); reflexivity.
  - destruct e; reflexivity.
Qed.

Lemma execute_frame st w : same_machine w (snd (execute env st ip w)).
Proof.
  destruct st as [name commands|name dropoff_map|name]; simpl.
  - unfold bind. pose proof (send_commands_frame commands w) as H.
    destruct (send_commands env ip commands w) as [[r|e] w1]; exact H.
  - rewrite execute_dropoff_cases. repeat split.
  - rewrite execute_wait_cases. repeat split.
Qed.

End Frame.

(** ** Signed indexing and insertion *)

Lemma py_index_nonneg {A} (l : list A) (i : Z) :
  (0 <= i)%Z -> py_index l i = l !! Z.to_nat i.
Proof.
  intros H. unfold py_index. destruct (Z.leb_spec 0 i); [reflexivity|lia].
Qed.

Lemma py_index_negative {A} (l : list A) (n : Z) :
  (n < 0)%Z -> (- Z.of_nat (length l) <= n)%Z ->
  py_index l n = l !! Z.to_nat (Z.of_nat (length l) + n) /\
  is_Some (py_index l n).
Proof.
  intros Hn Hl. unfold py_index.
  destruct (Z.leb_spec 0 n); [lia|].
  destruct (Z.leb_spec (- Z.of_nat (length l)) n); [|lia].
  split; [reflexivity|]. apply lookup_lt_is_Some. lia.
Qed.

Lemma py_index_underflow {A} (l : list A) (n : Z) :
  (n < - Z.of_nat (length l))%Z -> py_index l n = None.
Proof.
  intros Hn. unfold py_index.
  destruct (Z.leb_spec 0 n); [lia|].
  destruct (Z.leb_spec (- Z.of_nat (length l)) n); [lia|reflexivity].
Qed.

Lemma py_index_Some_bounds {A} (l : list A) (i : Z) (x : A) :
  py_index l i = Some x ->
  (- Z.of_nat (length l) <= i < Z.of_nat (length l))%Z /\ In x l.
Proof.
  unfold py_index. intros H.
  destruct (Z.leb_spec 0 i).
  - pose proof (lookup_lt_Some _ _ _ H). split; [lia|].
    apply list_elem_of_In. eapply list_elem_of_lookup_2; eauto.
  - destruct (Z.leb_spec (- Z.of_nat (length l)) i); [|discriminate].
    split; [lia|]. apply list_elem_of_In. eapply list_elem_of_lookup_2; eauto.
Qed.

Lemma py_insert_length {A} (l : list A) (i : Z) (x : A) :
  length (py_insert l i x) = S (length l).
Proof.
  unfold py_insert. rewrite length_app. simpl.
  rewrite length_take, length_drop. lia.
Qed.

Lemma py_insert_In {A} (l : list A) (i : Z) (x y : A) :
  In y (py_insert l i x) -> y = x \/ In y l.
Proof.
  unfold py_insert. intros H. apply in_app_or in H as [H | [H | H]].
  - right. rewrite <- (take_drop (Z.to_nat
      (if (i <? 0)%Z then Z.max 0 (i + Z.of_nat (length l))
       else Z.min i (Z.of_nat (length l)))) l).
    apply in_or_app. left. exact H.
  - left. congruence.
  - right. rewrite <- (take_drop (Z.to_nat
      (if (i <? 0)%Z then Z.max 0 (i + Z.of_nat (length l))
       else Z.min i (Z.of_nat (length l)))) l).
    apply in_or_app. right. exact H.
Qed.

(** Inside the list, [insert(i + 1, x)] splits it right after index [i]. *)
Lemma py_insert_after {A} (l : list A) (i : Z) (x : A) :
  (0 <= i < Z.of_nat (length l))%Z ->
  py_insert l (i + 1) x =
    take (S (Z.to_nat i)) l ++ x :: drop (S (Z.to_nat i)) l.
Proof.
  intros H. unfold py_insert.
  destruct (Z.ltb_spec (i + 1) 0); [lia|].
  replace (Z.to_nat (Z.min (i + 1) (Z.of_nat (length l))))
    with (S (Z.to_nat i)) by lia.
  reflexivity.
Qed.

Lemma insert_after_lookup {A} (l : list A) (n : nat) (x : A) :
  n < length l ->
  let l' := take (S n) l ++ x :: drop (S n) l in
  (forall j, j <= n -> l' !! j = l !! j) /\
  l' !! S n = Some x /\
  (forall j, n < j -> l' !! S j = l !! j).
Proof.
  intros Hn l'. subst l'.
  assert (Hlen : length (take (S n) l) = S n) by (rewrite length_take; lia).
  repeat split.
  - intros j Hj. rewrite lookup_app_l by lia. apply lookup_take_lt. lia.
  - rewrite lookup_app_r by lia. rewrite Hlen, Nat.sub_diag. reflexivity.
  - intros j Hj. rewrite lookup_app_r by lia. rewrite Hlen.
    replace (S j - S n) with (S (j - S n)) by lia. simpl.
    rewrite lookup_drop. f_equal. lia.
Qed.

(** ** The runner *)

Lemma dropoff_mapping_keys k v :
  dropoff_mapping !! k = Some v -> k = "1" \/ k = "2" \/ k = "3" \/ k = "4".
Proof.
  unfold dropoff_mapping, dict_of. simpl. intros Hv.
  repeat (rewrite lookup_insert in Hv; case_decide; [subst; tauto|]).
  rewrite lookup_empty in Hv. discriminate.
Qed.

Section Runner.

Variable env : Env.
Variable self : StateMachine.

(** The loop body: index the list at the cursor, announce and execute the
    object found, then act on what it returned. *)
Lemma loop_body_eq i w :
  loop_body env self i w =
  match py_index (states w) i with
  | None => (Raise IndexError, w)
  | Some state =>
      match execute env (ostate state) (ip_addr self)
                    (started w (oid state)) with
      | (Ok r, w1) => after_execute self i r w1
      | (Raise e, w1) => (Raise e, w1)
      end
  end.
Proof.
  unfold loop_body, bind, get_states.
  destruct (py_index (states w) i) as [state|]; [|reflexivity].
  simpl. fold (started w (oid state)).
  destruct (execute env (ostate state) (ip_addr self) (started w (oid state)))
    as [[r|e] w1]; reflexivity.
Qed.

Lemma after_execute_select i k dropoff_state_name factory w1 :
  dropoff_mapping !! k = Some dropoff_state_name ->
  state_registry self !! dropoff_state_name = Some factory ->
  after_execute self i (Str k) w1 = (Ok (Next (i + 1)), injected w1 i factory).
Proof.
  intros Hk Hf. unfold after_execute. simpl.
  assert (String.eqb k "REPEAT" = false) as ->.
  { destruct (dropoff_mapping_keys _ _ Hk) as [-> | [-> | [-> | ->]]];
      reflexivity. }
  rewrite Hk, Hf. reflexivity.
Qed.

(** Whenever the body asks for another pass, the cursor moved by +1 or -2
    with the world as the step left it, or one object was injected. *)
Lemma after_execute_next i r w1 i' w' :
  after_execute self i r w1 = (Ok (Next i'), w') ->
  (w' = w1 /\ (i' = i + 1 \/ i' = i - 2)%Z) \/
  (i' = (i + 1)%Z /\ exists factory, w' = injected w1 i factory).
Proof.
  unfold after_execute.
  destruct (result_eqb r (Enum SUCCESS)).
  { intros [= <- <-]. left. auto. }
  destruct (result_eqb r (Str "REPEAT")).
  { intros [= <- <-]. left. auto. }
  destruct (in_dropoff_mapping r) as [name|].
  - destruct (state_registry self !! name) as [factory|]; [|discriminate].
    intros [= <- <-]. right. split; [reflexivity|]. exists factory. reflexivity.
  - destruct (result_eqb r (Enum ABORT)); discriminate.
Qed.

Lemma after_execute_log i r w1 :
  log (snd (after_execute self i r w1)) = log w1.
Proof.
  unfold after_execute.
  destruct (result_eqb r (Enum SUCCESS)); [reflexivity|].
  destruct (result_eqb r (Str "REPEAT")); [reflexivity|].
  destruct (in_dropoff_mapping r) as [name|].
  - destruct (state_registry self !! name) as [factory|]; reflexivity.
  - destruct (result_eqb r (Enum ABORT)); reflexivity.
Qed.

Lemma loop_body_next i w i' w' :
  loop_body env self i w = (Ok (Next i'), w') ->
  exists state w1,
    py_index (states w) i = Some state /\
    same_machine (started w (oid state)) w1 /\
    ((w' = w1 /\ (i' = i + 1 \/ i' = i - 2)%Z) \/
     (i' = (i + 1)%Z /\ exists factory, w' = injected w1 i factory)).
Proof.
  rewrite loop_body_eq.
  destruct (py_index (states w) i) as [state|]; [|discriminate].
  pose proof (execute_frame env (ip_addr self) (ostate state)
                (started w (oid state))) as Hf.
  destruct (execute env (ostate state) (ip_addr self) (started w (oid state)))
    as [[r|e] w1]; [|discriminate].
  intros H. exists state, w1. split; [reflexivity|]. split; [exact Hf|].
  eapply after_execute_next; eauto.
Qed.

(** X18.  Along a run the cursor never exceeds the length, never falls more
    than two below minus the length, and the sequence never gets shorter. *)
Lemma reachable_bounds w0 w i :
  reachable env self w0 w i ->
  (- len_states w - 2 <= i <= len_states w)%Z /\
  length (states w0) <= length (states w).
Proof.
  unfold len_states. induction 1 as [|w i w' i' _ IH Hlt Hbody].
  - split; lia.
  - apply Z.ltb_lt in Hlt. unfold len_states in Hlt.
    destruct (loop_body_next _ _ _ _ Hbody)
      as (state & w1 & Hidx & (Hst & _ & _) & Hcase).
    apply py_index_Some_bounds in Hidx as [Hidx _]. simpl in Hst.
    destruct Hcase as [[-> Hi] | [-> [factory ->]]].
    + rewrite Hst. lia.
    + simpl. rewrite py_insert_length, Hst. lia.
Qed.

(** Along a run every identity in the sequence or in the log was handed
    out by the allocator. *)
Lemma reachable_allocated w0 w i :
  allocated w0 -> reachable env self w0 w i -> allocated w.
Proof.
  intros H0. induction 1 as [|w i w' i' _ IH Hlt Hbody]; [exact H0|].
  destruct IH as [IHs IHe].
  destruct (loop_body_next _ _ _ _ Hbody)
    as (state & w1 & Hidx & (Hst & Hn & Hex) & Hcase).
  apply py_index_Some_bounds in Hidx as [_ Hin]. simpl in Hst, Hn, Hex.
  rewrite executed_app in Hex. simpl in Hex.
  assert (Hstate : oid state < next_oid w).
  { rewrite List.Forall_forall in IHs. apply IHs. exact Hin. }
  assert (A1 : allocated w1).
  { split; [rewrite Hst, Hn; exact IHs|].
    rewrite Hex, Hn. apply Forall_app. split; [exact IHe|].
    constructor; [exact Hstate|constructor]. }
  destruct Hcase as [[-> _] | [_ [factory ->]]]; [exact A1|].
  destruct A1 as [A1s A1e]. split; simpl.
  - apply List.Forall_forall. intros y Hy.
    apply py_insert_In in Hy as [-> | Hy]; simpl; [lia|].
    rewrite List.Forall_forall in A1s. specialize (A1s y Hy). lia.
  - eapply Forall_impl; [exact A1e|]. simpl. intros; lia.
Qed.

End Runner.

Section Transitions.

Variable env : Env.
Variable self : StateMachine.

(** Injection at a cursor that is a position of the list.  Let the cursor
    [i] be a position of the sequence, and let the step there return a key
    [k] of [dropoff_mapping] whose target name is registered.  Then the pass asks for cursor [i + 1]; exactly one object,
    newly constructed by the registered factory, now sits at position
    [i + 1]; positions up to [i] are unchanged and the later ones moved
    right by one, so the length grew by one; the object at the new cursor
    is the injected one, so the selecting step is not executed again; and
    the injected object is new (it is no object of the old sequence) and
    has never been executed. *)
Lemma select_key_injects (i : Z) (w w1 : World) (state : Obj)
    (k dropoff_state_name : string) (factory : unit -> RobotState) :
  allocated w ->
  (0 <= i < len_states w)%Z ->
  states w !! Z.to_nat i = Some state ->
  execute env (ostate state) (ip_addr self) (started w (oid state))
    = (Ok (Str k), w1) ->
  dropoff_mapping !! k = Some dropoff_state_name ->
  state_registry self !! dropoff_state_name = Some factory ->
  let out := loop_body env self i w in
  let new := mkObj (next_oid w) (factory tt) in
  fst out = Ok (Next (i + 1)) /\
  states (snd out) =
    take (S (Z.to_nat i)) (states w) ++ new :: drop (S (Z.to_nat i)) (states w) /\
  length (states (snd out)) = S (length (states w)) /\
  (forall j, j <= Z.to_nat i -> states (snd out) !! j = states w !! j) /\
  (forall j, Z.to_nat i < j -> states (snd out) !! S j = states w !! j) /\
  states (snd out) !! S (Z.to_nat i) = Some new /\
  py_index (states (snd out)) (i + 1) = Some new /\
  (forall o, In o (states w) -> oid o <> oid new) /\
  ~ In (oid new) (executed (log (snd out))) /\
  executed (log (snd out)) = executed (log w) ++ [oid state].
Proof.
  intros [Hs He] Hi Hstate Hexec Hk Hf. unfold len_states in Hi. simpl.
  rewrite loop_body_eq, py_index_nonneg, Hstate, Hexec by lia.
  rewrite (after_execute_select self i k _ _ w1 Hk Hf).
  pose proof (execute_frame env (ip_addr self) (ostate state)
                (started w (oid state))) as (Hst & Hn & Hex).
  rewrite Hexec in Hst, Hn, Hex. simpl in Hst, Hn, Hex.
  rewrite executed_app in Hex. simpl in Hex.
  unfold injected. simpl. rewrite Hst, Hn, Hex.
  rewrite py_insert_after by lia.
  destruct (insert_after_lookup (states w) (Z.to_nat i)
              (mkObj (next_oid w) (factory tt))) as (L1 & L2 & L3); [lia|].
  assert (Hold : forall o, In o (states w) -> oid o <> next_oid w).
  { intros o Ho. rewrite List.Forall_forall in Hs. specialize (Hs o Ho). lia. }
  repeat split; try assumption.
  - rewrite length_app, length_take_le by lia. cbn [length].
    rewrite length_drop. lia.
  - rewrite py_index_nonneg by lia.
    replace (Z.to_nat (i + 1)) with (S (Z.to_nat i)) by lia. exact L2.
  - intros Hin. apply in_app_or in Hin as [Hin | [Hin | []]].
    + rewrite List.Forall_forall in He. specialize (He _ Hin). lia.
    + apply (Hold state); [|exact Hin].
      apply list_elem_of_In. eapply list_elem_of_lookup_2; eauto.
Qed.

(** C9.  At a negative cursor [n] the loop test holds, so the body runs.
    If [-len <= n] the object executed is the one at list index [len + n]:
    the pass is exactly the execution of that object followed by the usual
    transition, and its identity is what the pass adds to the executions
    logged.  If [n < -len] the pass raises IndexError, which the handler of
    [run] does not catch: the run ends with that exception, after closing
    the session, and not with an ending of its own. *)
Theorem negative_cursor_wraps_or_raises (n : Z) (w : World) :
  (n < 0)%Z ->
  ((- len_states w <= n)%Z ->
     exists state,
       states w !! Z.to_nat (len_states w + n) = Some state /\
       loop_body env self n w =
         match execute env (ostate state) (ip_addr self)
                       (started w (oid state)) with
         | (Ok r, w1) => after_execute self n r w1
         | (Raise e, w1) => (Raise e, w1)
         end /\
       executed (log (snd (loop_body env self n w)))
         = executed (log w) ++ [oid state] /\
       forall fuel,
         while_loop env self (S fuel) n w =
           match loop_body env self n w with
           | (Ok (Next i'), w') => while_loop env self fuel i' w'
           | (Ok (Halt e), w') => (Ok (Some e), w')
           | (Raise e, w') => (Raise e, w')
           end) /\
  ((n < - len_states w)%Z ->
     forall fuel,
       guarded (while_loop env self (S fuel) n) w =
         (Raise IndexError,
          mkWorld (states w) (next_oid w) (gets w) (reads w)
                  (log w ++ [EvClose]))).
Proof.
  intros Hn.
  assert (Hcond : (n <? len_states w)%Z = true).
  { apply Z.ltb_lt. unfold len_states. lia. }
  split.
  - intros Hl. unfold len_states in *.
    destruct (py_index_negative (states w) n Hn Hl) as [Hidx [state Hs]].
    exists state. rewrite Hidx in Hs.
    assert (Hbody : loop_body env self n w =
         match execute env (ostate state) (ip_addr self)
                       (started w (oid state)) with
         | (Ok r, w1) => after_execute self n r w1
         | (Raise e, w1) => (Raise e, w1)
         end).
    { rewrite loop_body_eq, Hidx, Hs. reflexivity. }
    split; [exact Hs|]. split; [exact Hbody|]. split.
    + rewrite Hbody.
      pose proof (execute_frame env (ip_addr self) (ostate state)
                    (started w (oid state))) as (_ & _ & Hex).
      destruct (execute env (ostate state) (ip_addr self)
                  (started w (oid state))) as [[r|e] w1]; simpl in Hex.
      * rewrite after_execute_log, Hex, executed_app. reflexivity.
      * simpl. rewrite Hex, executed_app. reflexivity.
    + intros fuel. simpl. unfold len_states. rewrite Hcond.
      destruct (loop_body env self n w) as [[[i'|e]|e] w']; reflexivity.
  - intros Hl fuel. unfold guarded, try_finally, try_except. simpl.
    rewrite Hcond, loop_body_eq, py_index_underflow by exact Hl.
    reflexivity.
Qed.

End Transitions.

(** ** What REPEAT does *)

(** When the step at the cursor returns ["REPEAT"], the pass asks for
    cursor [i - 2] and changes nothing else. *)
Lemma loop_body_repeat env self i w state w1 :
  py_index (states w) i = Some state ->
  execute env (ostate state) (ip_addr self) (started w (oid state))
    = (Ok (Str "REPEAT"), w1) ->
  loop_body env self i w = (Ok (Next (i - 2)), w1).
Proof.
  intros Hidx Hexec. rewrite loop_body_eq, Hidx, Hexec. reflexivity.
Qed.

(** C1, on the code.  With the sequence Home, LeftPickup, Wait (objects
    0, 1, 2) and the operator typing "r" at the Wait step (cursor 2), the
    pass asks for cursor 0, and the next object executed is 0 (Home), two
    positions back, not object 1 (LeftPickup), the step just before Wait.
    With the two-step sequence Home, Wait and the operator typing "r"
    twice, the cursor goes 1, -1, -3 and the run ends with IndexError on
    its fourth pass, however many further passes it is allowed. *)
Theorem repeat_reruns_two_back :
  (let env := env_typed ["r"] in
   let w := built ["Home"; "LeftPickup"; "Wait"] in
   let w2 := snd (while_loop env (machine ip0) 2 0%Z w) in
   map oid (states w) = [0; 1; 2] /\
   executed (log w2) = [0; 1] /\
   fst (loop_body env (machine ip0) 2%Z w2) = Ok (Next 0%Z) /\
   oid <$> py_index (states w) (2 - 1)%Z = Some 1 /\
   executed (log (snd (while_loop env (machine ip0) 4 0%Z w))) = [0; 1; 2; 0]) /\
  (let env := env_typed ["r"; "r"] in
   let w := built ["Home"; "Wait"] in
   forall fuel,
     fst (run env (machine ip0) (4 + fuel) w) = Raise IndexError /\
     executed (log (snd (run env (machine ip0) (4 + fuel) w))) = [0; 1; 1]).
Proof.
  split.
  - vm_compute. repeat split.
  - intros env w fuel. vm_compute. split; reflexivity.
Qed.

(** C3, on the code.  With the sequence Wait, Home and the operator typing
    "r" at the first step, the loop reaches cursor -2 while the sequence
    has two steps: the cursor has left the range from 0 to the length. *)
Theorem repeat_drives_cursor_negative :
  let env := env_typed ["r"] in
  let w0 := built ["Wait"; "Home"] in
  let w1 := snd (loop_body env (machine ip0) 0%Z w0) in
  reachable env (machine ip0) w0 w1 (-2)%Z /\ len_states w1 = 2%Z.
Proof.
  split; [|vm_compute; reflexivity].
  eapply reach_step with (w := built ["Wait"; "Home"]) (i := 0%Z).
  - apply reach_start.
  - vm_compute. reflexivity.
  - vm_compute. reflexivity.
Qed.

(** ** The pacing delay after a request timeout *)

(** C6, on the code.  [_send_command] is documented as "send a command
    and wait", and after a completed request it does sleep for the delay
    before returning SUCCESS.  When the request times out, with the delay
    0.5 positive, it returns the same SUCCESS and no sleep has taken place:
    [time.sleep] sits inside the [try], after the request, and the Timeout
    handler returns without it. *)
Lemma send_timeout_skips_delay :
  let out := _send_command env_timeout ip0 home_command 0.5%float world0 in
  (0 <? 0.5)%float = true /\
  fst out = Ok SUCCESS /\
  slept (log (snd out)) = [] /\
  log (snd out) = [EvGet ip0 home_command].
Proof. vm_compute. repeat split. Qed.

(** ** A completed request whose pacing sleep is refused *)


(** ** Injection at a negative cursor *)

(** C2, on the code.  With the sequence Wait, SelectDropoff (objects 0, 1)
    and the operator typing "r", then an empty line, then "2": the loop
    reaches cursor -1, where the selection step is executed and returns
    "2".  The pass asks for cursor 0 and [insert(0, ..)] puts the new
    object 2 at the front of the list, not right after the selection step,
    which moves from position 1 to position 2.  The run goes on from the
    front (two more lines: empty, then "s") and executes the selection step
    a second time. *)
Theorem selection_at_negative_cursor :
  let env := env_typed ["r"; ""; "2"; ""; "s"] in
  let w0 := built ["Wait"; "SelectDropoff"] in
  let w2 := snd (while_loop env (machine ip0) 2 0%Z w0) in
  map oid (states w0) = [0; 1] /\
  reachable env (machine ip0) w0 w2 (-1)%Z /\
  oid <$> py_index (states w2) (-1)%Z = Some 1 /\
  fst (execute env (DropoffSelectionState "Select Dropoff" select_dropoff_map)
         ip0 (started w2 1)) = Ok (Str "2") /\
  fst (loop_body env (machine ip0) (-1)%Z w2) = Ok (Next 0%Z) /\
  map oid (states (snd (loop_body env (machine ip0) (-1)%Z w2))) = [2; 0; 1] /\
  fst (run env (machine ip0) 6 w0) = Ok (Some Completed) /\
  executed (log (snd (run env (machine ip0) 6 w0))) = [0; 0; 1; 2; 0; 1].
Proof.
  intros env w0 w2.
  split; [vm_compute; reflexivity|].
  split; [|vm_compute; repeat split].
  eapply reach_step with (w := snd (loop_body env (machine ip0) 0%Z w0))
                         (i := (-2)%Z).
  - eapply reach_step with (w := w0) (i := 0%Z).
    + apply reach_start.
    + vm_compute. reflexivity.
    + vm_compute. reflexivity.
  - vm_compute. reflexivity.
  - vm_compute. reflexivity.
Qed.

(** * Further properties of the engine *)

(** ** The wait step *)

(** X1.  [WaitForInputState.execute] reads one line, lower-cases and strips
    it: ["r"] yields the string ["REPEAT"], every other line (["s"], the
    empty line, anything else) yields SUCCESS, end of input and a keyboard
    interrupt yield ABORT.  It never yields FAILURE, issues no request and
    logs nothing. *)
Theorem wait_step_outcomes (env : Env) (ip name : string) (w : World) :
  let out := execute env (WaitForInputState name) ip w in
  (forall line, console env (reads w) = Line line ->
     strip (lower line) = "r" -> fst out = Ok (Str "REPEAT")) /\
  (forall line, console env (reads w) = Line line ->
     strip (lower line) <> "r" -> fst out = Ok (Enum SUCCESS)) /\
  (console env (reads w) = InputRaises EOFError \/
   console env (reads w) = InputRaises KeyboardInterrupt ->
     fst out = Ok (Enum ABORT)) /\
  fst out <> Ok (Enum FAILURE) /\
  log (snd out) = log w /\ gets (snd out) = gets w /\
  reads (snd out) = S (reads w).
Proof.
  simpl. rewrite execute_wait_cases. simpl. repeat split.
  - intros line -> Hr. simpl. rewrite Hr. reflexivity.
  - intros line -> Hr. simpl. apply String.eqb_neq in Hr. rewrite Hr.
    destruct (String.eqb _ "s"); reflexivity.
  - intros [-> | ->]; reflexivity.
  - destruct (console env (reads w)) as [line|e].
    + simpl. destruct (String.eqb _ "s"); [discriminate|].
      destruct (String.eqb _ "r"); discriminate.
    + destruct e; discriminate.
Qed.

(** ** What a selection step can return *)

Lemma lower_char_not_upper c : is_upper (lower_char c) = false.
Proof. destruct c as [[] [] [] [] [] [] [] []]; reflexivity. Qed.

Lemma lower_no_upper s : no_upper (lower s) = true.
Proof.
  induction s as [|c r IH]; simpl; [reflexivity|].
  rewrite lower_char_not_upper, IH. reflexivity.
Qed.

Lemma lstrip_no_upper s : no_upper s = true -> no_upper (lstrip s) = true.
Proof.
  induction s as [|c r IH]; simpl; [reflexivity|].
  intros H. destruct (isspace c); [|exact H].
  apply andb_prop in H as [_ H]. auto.
Qed.

Lemma rstrip_no_upper s : no_upper s = true -> no_upper (rstrip s) = true.
Proof.
  induction s as [|c r IH]; simpl; [reflexivity|].
  intros H. apply andb_prop in H as [Hc Hr]. specialize (IH Hr).
  destruct (rstrip r) as [|c' r'].
  - destruct (isspace c); simpl; [reflexivity|]. rewrite Hc. reflexivity.
  - simpl in *. rewrite Hc, IH. reflexivity.
Qed.

Lemma normalised_no_upper line : no_upper (strip (lower line)) = true.
Proof.
  unfold strip. apply rstrip_no_upper, lstrip_no_upper, lower_no_upper.
Qed.

(** X2.  Whatever string a selection step returns is the lower-cased,
    stripped line the operator typed, is a key of the step's own dropoff
    map, and is neither ["s"] nor ["a"].  It contains no capital letter, so
    it is never ["REPEAT"]: a selection step cannot make the runner rewind,
    whatever keys its map has. *)
Theorem select_step_returns_own_key (env : Env) (ip name : string)
    (dropoff_map : gmap string string) (w : World) (k : string) :
  fst (execute env (DropoffSelectionState name dropoff_map) ip w)
    = Ok (Str k) ->
  (exists line, console env (reads w) = Line line /\ k = strip (lower line)) /\
  is_Some (dropoff_map !! k) /\
  k <> "s" /\ k <> "a" /\ no_upper k = true /\ k <> "REPEAT".
Proof.
  simpl. rewrite execute_dropoff_cases. simpl.
  destruct (console env (reads w)) as [line|e]; [|destruct e; discriminate].
  simpl. destruct (String.eqb_spec (strip (lower line)) "s"); [discriminate|].
  destruct (String.eqb_spec (strip (lower line)) "a"); [discriminate|].
  destruct (dropoff_map !! strip (lower line)) as [v|] eqn:E; [|discriminate].
  intros [= <-].
  pose proof (normalised_no_upper line) as Hu.
  repeat split; eauto.
  intros Heq. rewrite Heq in Hu. discriminate.
Qed.

(** ** What a fixed step can return *)

Lemma dispatch_outcomes env n d :
  match dispatch env n d with
  | Ok SUCCESS | Ok FAILURE => True
  | Ok ABORT => False
  | Raise e => is_Exception e = false
  end.
Proof.
  unfold dispatch. destruct (net env n) as [text|e].
  - destruct (0 <? d)%float; [destruct (fits_ns d)|]; exact I.
  - destruct (is_Timeout e); [exact I|].
    destruct (is_Exception e) eqn:E; [exact I | exact E].
Qed.

Lemma send_commands_outcomes env ip commands : forall w,
  let out := send_commands env ip commands w in
  match fst out with
  | Ok SUCCESS | Ok FAILURE => True
  | Ok ABORT => False
  | Raise e => is_Exception e = false
  end /\ reads (snd out) = reads w.
Proof.
  induction commands as [|[cmd delay] rest IH]; intros w; simpl; [auto|].
  unfold bind.
  destruct (send_command_split env ip cmd delay w) as [pause ->].
  pose proof (dispatch_outcomes env (gets w) delay) as H.
  destruct (dispatch env (gets w) delay) as [[]|e]; simpl; auto.
  apply (IH (after_send ip cmd w delay pause)).
Qed.

(** X3.  A fixed step returns SUCCESS or FAILURE, or lets an exception
    through that is not an [Exception] (a keyboard interrupt); it never
    returns ABORT or a string, so it can neither rewind the runner nor
    inject a step, and it never reads the console. *)
Theorem fixed_step_outcomes (env : Env) (ip name : string)
    (commands : list (command_str * float)) (w : World) :
  let out := execute env (SimpleRobotState name commands) ip w in
  (fst out = Ok (Enum SUCCESS) \/ fst out = Ok (Enum FAILURE) \/
   exists e, fst out = Raise e /\ is_Exception e = false) /\
  reads (snd out) = reads w.
Proof.
  simpl. unfold bind.
  pose proof (send_commands_outcomes env ip commands w) as [H Hr].
  simpl in H, Hr.
  destruct (send_commands env ip commands w) as [[r|e] w1]; simpl in *.
  - split; [|exact Hr]. destruct r; [auto | auto | contradiction].
  - split; [|exact Hr]. right. right. eauto.
Qed.

(** ** Pacing of a fixed step *)




(** ** The loop, one pass at a time *)

Section Run.

Variable env : Env.
Variable self : StateMachine.

Lemma while_loop_unfold fuel i w :
  (i <? len_states w)%Z = true ->
  while_loop env self (S fuel) i w =
  match loop_body env self i w with
  | (Ok (Next i'), w') => while_loop env self fuel i' w'
  | (Ok (Halt e), w') => (Ok (Some e), w')
  | (Raise e, w') => (Raise e, w')
  end.
Proof.
  intros H. simpl. rewrite H.
  destruct (loop_body env self i w) as [[[i'|e]|e] w']; reflexivity.
Qed.

Lemma while_loop_done fuel i w :
  (i <? len_states w)%Z = false ->
  while_loop env self fuel i w = (Ok (Some Completed), w).
Proof. intros H. destruct fuel; simpl; rewrite H; reflexivity. Qed.

Lemma guarded_cases c w :
  guarded c w =
  (match fst (c w) with
   | Raise KeyboardInterrupt => Ok (Some Interrupted)
   | r => r
   end, closed (snd (c w))).
Proof.
  unfold guarded, try_finally, try_except, closed.
  destruct (c w) as [[r|e] w']; simpl; [reflexivity|].
  destruct e; reflexivity.
Qed.

Lemma py_index_in_loop {A} (l : list A) i x :
  py_index l i = Some x -> (i <? Z.of_nat (length l))%Z = true.
Proof.
  intros H. apply py_index_Some_bounds in H as [H _]. apply Z.ltb_lt. lia.
Qed.

(** X5.  When the step at the cursor returns FAILURE, ABORT, or a string
    that is neither ["REPEAT"] nor a key of [dropoff_mapping] (a selection
    step with a key of its own, say), the run is over: nothing but the
    closing of the session happens after that step, however many passes
    remain.  The run ends as Aborted for ABORT and as Failed otherwise. *)
Theorem fatal_outcome_ends_run (i : Z) (w w1 : World) (state : Obj)
    (r : result) (fuel : nat) :
  py_index (states w) i = Some state ->
  execute env (ostate state) (ip_addr self) (started w (oid state))
    = (Ok r, w1) ->
  r = Enum FAILURE \/ r = Enum ABORT \/
    (exists s, r = Str s /\ s <> "REPEAT" /\ dropoff_mapping !! s = None) ->
  guarded (while_loop env self (S fuel) i) w
    = (Ok (Some (ending_of r)), closed w1).
Proof.
  intros Hidx Hexec Hr.
  rewrite guarded_cases, while_loop_unfold
    by (eapply py_index_in_loop; exact Hidx).
  rewrite loop_body_eq, Hidx, Hexec. unfold after_execute.
  destruct Hr as [-> | [-> | (s & -> & Hs & Hk)]]; simpl; try reflexivity.
  apply String.eqb_neq in Hs. rewrite Hs, Hk. reflexivity.
Qed.

(** X6.  When the step at the cursor returns a key of [dropoff_mapping]
    but the machine's registry has no factory under the mapped name, the
    lookup raises KeyError, which [run] does not catch: the run ends with
    that exception after closing the session, no step was constructed and
    the sequence is as the step left it. *)
Theorem unregistered_target_raises (i : Z) (w w1 : World) (state : Obj)
    (k dropoff_state_name : string) (fuel : nat) :
  py_index (states w) i = Some state ->
  execute env (ostate state) (ip_addr self) (started w (oid state))
    = (Ok (Str k), w1) ->
  dropoff_mapping !! k = Some dropoff_state_name ->
  state_registry self !! dropoff_state_name = None ->
  guarded (while_loop env self (S fuel) i) w = (Raise KeyError, closed w1) /\
  states w1 = states w /\ next_oid w1 = next_oid w.
Proof.
  intros Hidx Hexec Hk Hreg.
  pose proof (execute_frame env (ip_addr self) (ostate state)
                (started w (oid state))) as (Hst & Hn & _).
  rewrite Hexec in Hst, Hn. split; [|split; assumption].
  rewrite guarded_cases, while_loop_unfold
    by (eapply py_index_in_loop; exact Hidx).
  rewrite loop_body_eq, Hidx, Hexec. unfold after_execute. simpl.
  assert (String.eqb k "REPEAT" = false) as ->.
  { destruct (dropoff_mapping_keys _ _ Hk) as [-> | [-> | [-> | ->]]];
      reflexivity. }
  rewrite Hk, Hreg. reflexivity.
Qed.

(** ** The session is closed exactly once, at the very end *)

Lemma extends_open_refl w : extends_open w w.
Proof. exists []. rewrite app_nil_r. auto. Qed.

Lemma extends_open_trans w1 w2 w3 :
  extends_open w1 w2 -> extends_open w2 w3 -> extends_open w1 w3.
Proof.
  intros (l1 & E1 & N1) (l2 & E2 & N2). exists (l1 ++ l2).
  rewrite E2, E1, app_assoc. split; [reflexivity|].
  intros H. apply in_app_or in H. tauto.
Qed.

Lemma after_send_extends ip cmd w delay pause :
  extends_open w (after_send ip cmd w delay pause).
Proof.
  eexists. split; [reflexivity|].
  destruct pause; simpl; intros H; intuition discriminate.
Qed.

Lemma send_commands_extends ip commands : forall w,
  extends_open w (snd (send_commands env ip commands w)).
Proof.
  induction commands as [|[cmd delay] rest IH]; intros w; simpl.
  - apply extends_open_refl.
  - unfold bind. destruct (send_command_world env ip cmd delay w) as [pause Hw].
    pose proof (after_send_extends ip cmd w delay pause) as Hext.
    destruct (_send_command env ip cmd delay w) as [[r|e] w1]; simpl in Hw;
      subst w1; [|exact Hext].
    destruct r; simpl; try exact Hext.
    eapply extends_open_trans; [exact Hext | apply IH].
Qed.

Lemma execute_extends st ip w : extends_open w (snd (execute env st ip w)).
Proof.
  destruct st as [name commands|name dropoff_map|name]; simpl.
  - unfold bind. pose proof (send_commands_extends ip commands w) as H.
    destruct (send_commands env ip commands w) as [[r|e] w1]; exact H.
  - rewrite execute_dropoff_cases. exists []. simpl. rewrite app_nil_r. auto.
  - rewrite execute_wait_cases. exists []. simpl. rewrite app_nil_r. auto.
Qed.

Lemma loop_body_extends i w : extends_open w (snd (loop_body env self i w)).
Proof.
  rewrite loop_body_eq.
  destruct (py_index (states w) i) as [state|]; [|apply extends_open_refl].
  assert (H0 : extends_open w (started w (oid state))).
  { eexists. split; [reflexivity|]. simpl. intuition discriminate. }
  pose proof (execute_extends (ostate state) (ip_addr self)
                (started w (oid state))) as H1.
  destruct (execute env (ostate state) (ip_addr self) (started w (oid state)))
    as [[r|e] w1]; simpl in *.
  - eapply extends_open_trans; [exact H0|].
    eapply extends_open_trans; [exact H1|].
    exists []. rewrite after_execute_log, app_nil_r. auto.
  - eapply extends_open_trans; eauto.
Qed.

Lemma while_loop_extends fuel : forall i w,
  extends_open w (snd (while_loop env self fuel i w)).
Proof.
  induction fuel as [|fuel IH]; intros i w; simpl.
  - destruct (i <? len_states w)%Z; apply extends_open_refl.
  - destruct (i <? len_states w)%Z; [|apply extends_open_refl].
    pose proof (loop_body_extends i w) as H.
    destruct (loop_body env self i w) as [[[i'|e]|e] w']; simpl in *; auto.
    eapply extends_open_trans; [exact H | apply IH].
Qed.

(** X7.  However a run ends (completed, failed, aborted, interrupted, or
    with an exception it does not catch), closing the session is the last
    thing it does, and it does so exactly once: nothing before the final
    event closes the session. *)
Theorem run_closes_session_once (fuel : nat) (w : World) :
  exists l,
    log (snd (run env self fuel w)) = log w ++ l ++ [EvClose] /\
    ~ In EvClose l.
Proof.
  unfold run. rewrite guarded_cases. simpl.
  destruct (while_loop_extends fuel 0%Z w) as (l & E & N).
  exists l. rewrite E, <- app_assoc. auto.
Qed.

(** What [run] returns is what its loop returns, except that a keyboard
    interrupt escaping from the loop becomes the ending Interrupted; every
    other exception goes through unchanged. *)
Lemma run_catches_only_interrupt (fuel : nat) (w : World) :
  let inner := fst (while_loop env self fuel 0%Z w) in
  (inner = Raise KeyboardInterrupt ->
     fst (run env self fuel w) = Ok (Some Interrupted)) /\
  (forall e, inner = Raise e -> e <> KeyboardInterrupt ->
     fst (run env self fuel w) = Raise e) /\
  (forall r, inner = Ok r -> fst (run env self fuel w) = Ok r).
Proof.
  unfold run. rewrite guarded_cases. simpl. repeat split.
  - intros ->. reflexivity.
  - intros e -> He. destruct e; try reflexivity. contradiction.
  - intros r ->. reflexivity.
Qed.

End Run.

(** ** Whole runs over fixed steps *)

Section FixedRuns.

Variable env : Env.
Variable self : StateMachine.










End FixedRuns.

(** ** Loading the machine *)

(** X10.  Loading a sequence in two calls, first [a] then [b], is the
    same as loading [a ++ b] in one call: same sequence, same identities,
    same warnings. *)
Theorem add_states_from_sequence_app (self : StateMachine)
    (a b : list string) (w : World) :
  add_states_from_sequence self (a ++ b) w =
  (add_states_from_sequence self a ;;; add_states_from_sequence self b) w.
Proof.
  revert w. induction a as [|n a IH]; intros w.
  - reflexivity.
  - change ((n :: a) ++ b) with (n :: (a ++ b)).
    unfold bind. rewrite !add_states_from_sequence_cons, IH. reflexivity.
Qed.

Lemma known_unknown_length reg sequence :
  length (known_states reg sequence) + length (unknown_names reg sequence)
    = length sequence.
Proof.
  induction sequence as [|n rest IH]; simpl; [reflexivity|].
  destruct (reg !! n); simpl; lia.
Qed.

(** X11.  Every name of the sequence is accounted for exactly once: the
    number of steps added plus the number of warnings printed equals the
    number of names.  In particular, when every name is registered nothing
    is reported and the machine grows by one step per name. *)
Theorem every_name_added_or_reported (self : StateMachine)
    (sequence : list string) (w : World) :
  let out := add_states_from_sequence self sequence w in
  (exists reported,
     log (snd out) = log w ++ map EvWarnUnknown reported /\
     length (states (snd out)) + length reported
       = length (states w) + length sequence) /\
  ((forall n, In n sequence -> is_Some (state_registry self !! n)) ->
     log (snd out) = log w /\
     length (states (snd out)) = length (states w) + length sequence).
Proof.
  destruct (add_states_from_sequence_spec self sequence w)
    as (_ & H2 & H3 & _).
  pose proof (known_unknown_length (state_registry self) sequence) as Hlen.
  assert (Hst : forall l, length (number_from (next_oid w) l) = length l).
  { intros l. generalize (next_oid w).
    induction l as [|s r IH]; intros m; simpl; [reflexivity|].
    rewrite IH. reflexivity. }
  cbv zeta in *. split.
  - exists (unknown_names (state_registry self) sequence).
    split; [exact H3|]. rewrite H2, length_app, Hst. lia.
  - intros Hall.
    assert (Hnone : unknown_names (state_registry self) sequence = []).
    { destruct (unknown_names (state_registry self) sequence) as [|n r] eqn:E;
        [reflexivity|].
      assert (Hin : In n (unknown_names (state_registry self) sequence))
        by (rewrite E; left; reflexivity).
      apply unknown_names_spec in Hin as [Hin Hn].
      destruct (Hall n Hin) as [f Hf]. congruence. }
    rewrite Hnone in *. simpl in *.
    split; [rewrite H3; apply app_nil_r|].
    rewrite H2, length_app, Hst. lia.
Qed.

Lemma all_unknown reg sequence :
  (forall n, In n sequence -> reg !! n = None) ->
  known_states reg sequence = [] /\ unknown_names reg sequence = sequence.
Proof.
  induction sequence as [|n rest IH]; intros H; simpl; [auto|].
  rewrite (H n) by (left; reflexivity).
  destruct IH as [-> ->]; [|auto]. intros m Hm. apply H. right. exact Hm.
Qed.

(** X12.  Loading an empty machine with names none of which is registered
    (the empty list included) and running it: each name is reported, no
    step is executed, no request is issued, and the run completes at once,
    whatever the number of passes allowed. *)
Theorem unknown_only_sequence_completes (env : Env) (self : StateMachine)
    (sequence : list string) (fuel : nat) (w : World) :
  states w = [] ->
  (forall n, In n sequence -> state_registry self !! n = None) ->
  let out := (add_states_from_sequence self sequence ;;;
              run env self fuel) w in
  fst out = Ok (Some Completed) /\
  log (snd out) = log w ++ map EvWarnUnknown sequence ++ [EvClose] /\
  gets (snd out) = gets w /\ states (snd out) = [].
Proof.
  intros Hw Hall. cbv zeta. unfold bind.
  destruct (add_states_from_sequence_spec self sequence w)
    as (H1 & H2 & H3 & _).
  destruct (all_unknown _ _ Hall) as [Hk Hu].
  rewrite Hk, Hu, Hw in *. simpl in H2.
  assert (Hg : gets (snd (add_states_from_sequence self sequence w)) = gets w).
  { clear. revert w. induction sequence as [|n rest IH]; intros w;
      [reflexivity|].
    rewrite add_states_from_sequence_cons, IH.
    destruct (state_registry self !! n); reflexivity. }
  destruct (add_states_from_sequence self sequence w) as [[[]|e] w1];
    cbn [fst snd] in *; [|discriminate].
  unfold run. rewrite guarded_cases.
  rewrite while_loop_done
    by (unfold len_states; rewrite H2; reflexivity).
  simpl. rewrite H3, H2, Hg, <- app_assoc. auto.
Qed.

(** ** What a run keeps *)

Section Kept.

Variable env : Env.
Variable self : StateMachine.

Lemma insert_between_sublist {A} (l1 l2 : list A) (x : A) :
  (l1 ++ l2) `sublist_of` (l1 ++ x :: l2).
Proof. apply sublist_app; [reflexivity|]. apply sublist_cons. reflexivity. Qed.

Lemma py_insert_sublist {A} (l : list A) (i : Z) (x : A) :
  l `sublist_of` py_insert l i x.
Proof.
  unfold py_insert.
  set (n := Z.to_nat _).
  pose proof (insert_between_sublist (take n l) (drop n l) x) as H.
  rewrite take_drop in H. exact H.
Qed.

(** X13.  A run never removes nor reorders steps: at every pass the
    sequence the run started with is a subsequence, in the same order, of
    the current one. *)
Theorem run_keeps_steps_in_order (w0 w : World) (i : Z) :
  reachable env self w0 w i -> states w0 `sublist_of` states w.
Proof.
  induction 1 as [|w i w' i' _ IH _ Hbody]; [reflexivity|].
  destruct (loop_body_next _ _ _ _ _ _ Hbody)
    as (state & w1 & _ & (Hst & _ & _) & Hcase).
  simpl in Hst.
  destruct Hcase as [[-> _] | [_ [factory ->]]].
  - rewrite Hst. exact IH.
  - simpl. rewrite Hst. etransitivity; [exact IH|]. apply py_insert_sublist.
Qed.

Lemma oid_number_from l : forall n,
  map oid (number_from n l) = seq n (length l).
Proof.
  induction l as [|s r IH]; intros n; simpl; [reflexivity|].
  rewrite IH. reflexivity.
Qed.

Lemma py_insert_oids (l : list Obj) (i : Z) (x : Obj) :
  Permutation (oid x :: map oid l) (map oid (py_insert l i x)).
Proof.
  unfold py_insert. set (n := Z.to_nat _).
  rewrite map_app. simpl.
  rewrite <- (take_drop n l) at 1. rewrite map_app.
  apply Permutation_middle.
Qed.

(** X14.  In a machine loaded by [add_states_from_sequence] from scratch,
    and at every pass of its run, no step object occurs twice in the
    sequence: each entry, loaded or injected, is an instance of its own,
    also when the same name was listed or selected several times. *)
Theorem step_objects_are_distinct (sequence : list string) (w : World)
    (i : Z) :
  reachable env self
    (snd (add_states_from_sequence self sequence world0)) w i ->
  List.NoDup (map oid (states w)).
Proof.
  intros Hreach.
  assert (H0 : allocated (snd (add_states_from_sequence self sequence world0)))
    by (apply add_states_allocated, world0_allocated).
  assert (N0 : List.NoDup
            (map oid (states (snd (add_states_from_sequence self sequence
                                     world0))))).
  { destruct (add_states_from_sequence_spec self sequence world0)
      as (_ & H2 & _). cbv zeta in H2. rewrite H2. simpl.
    rewrite oid_number_from. apply List.seq_NoDup. }
  revert Hreach H0 N0.
  generalize (snd (add_states_from_sequence self sequence world0)).
  intros w0 Hreach H0 N0.
  induction Hreach as [|w i w' i' Hprev IH _ Hbody]; [exact N0|].
  pose proof (reachable_allocated env self _ _ _ H0 Hprev) as [As _].
  destruct (loop_body_next _ _ _ _ _ _ Hbody)
    as (state & w1 & _ & (Hst & Hn & _) & Hcase).
  simpl in Hst, Hn.
  destruct Hcase as [[-> _] | [_ [factory ->]]].
  - rewrite Hst. exact IH.
  - simpl. rewrite Hst, Hn.
    eapply Permutation_NoDup; [apply py_insert_oids|]. simpl.
    constructor; [|exact IH].
    intros Hin. apply in_map_iff in Hin as (o & Ho & Hino).
    rewrite List.Forall_forall in As. specialize (As o Hino). lia.
Qed.

End Kept.

(** ** A selection in the middle of fixed steps *)

Section Selection.

Variable env : Env.
Variable self : StateMachine.




End Selection.

(** ** Rewinding from a wait step *)

Section Rewind.

Variable env : Env.
Variable self : StateMachine.





End Rewind.

(** * Instances on concrete runs *)


(** The Home command with its delay of 0.1 s, with no delay, and against a
    peer that times out. *)
Lemma send_command_pacing_witness :
  log (snd (_send_command (env_typed []) ip0 home_command 0.1%float world0))
    = [EvGet ip0 home_command; EvSleep 0.1%float] /\
  log (snd (_send_command (env_typed []) ip0 home_command 0%float world0))
    = [EvGet ip0 home_command] /\
  log (snd (_send_command env_timeout ip0 home_command 0.1%float world0))
    = [EvGet ip0 home_command].
Proof.
  split; [|split].
  - rewrite (proj1 (send_command_pacing
                      (env_typed []) ip0 home_command 0.1%float world0) "ok");
      reflexivity.
  - rewrite (proj1 (proj2 (send_command_pacing
                      (env_typed []) ip0 home_command 0%float world0)) "ok");
      reflexivity.
  - rewrite (proj2 (proj2 (send_command_pacing
                      env_timeout ip0 home_command 0.1%float world0))
               ReqReadTimeout); reflexivity.
Defined.

(** The four commands of Left Pickup: every dispatch returning SUCCESS, and
    with the second request refused. *)
Lemma fixed_step_dispatch_witness :
  let step := SimpleRobotState "Left Pickup" left_pickup_commands in
  (fst (execute (env_typed []) step ip0 world0) = Ok (Enum SUCCESS) /\
   sent (log (snd (execute (env_typed []) step ip0 world0)))
     = map fst left_pickup_commands) /\
  (let env := mkEnv (answers [Response "ok"; GetRaises ReqConnectionError])
                    (typed []) in
   fst (execute env step ip0 world0) = Ok (Enum FAILURE) /\
   sent (log (snd (execute env step ip0 world0)))
     = take 2 (map fst left_pickup_commands) /\
   gets (snd (execute env step ip0 world0)) = 2).
Proof.
  intros step. split.
  - destruct (proj1 (fixed_step_dispatch (env_typed []) ip0
                       "Left Pickup" left_pickup_commands world0))
      as (H1 & H2 & _).
    + intros k c d w' Hl Hg. rewrite send_command_fst, Hg.
      destruct k as [|[|[|[|k]]]]; vm_compute in Hl;
        [injection Hl as <- <- ..| discriminate]; reflexivity.
    + split; [exact H1 | exact H2].
  - intros env.
    destruct (proj2 (fixed_step_dispatch env ip0
                       "Left Pickup" left_pickup_commands world0) 2)
      as (H1 & H2 & H3).
    + simpl. lia.
    + intros k c d w' Hk Hl Hg. rewrite send_command_fst, Hg.
      destruct k; [|lia]. vm_compute in Hl. injection Hl as <- <-.
      reflexivity.
    + intros c d w' Hl Hg. rewrite send_command_fst, Hg.
      vm_compute in Hl. injection Hl as <- <-. reflexivity.
    + split; [exact H1 | split; [exact H2 | exact H3]].
Defined.

(** The registered selection step on the five kinds of console event. *)
Lemma select_step_outcomes_witness :
  let step := DropoffSelectionState "Select Dropoff" select_dropoff_map in
  fst (execute (env_typed [" S "]) step ip0 world0) = Ok (Enum SUCCESS) /\
  fst (execute (env_typed ["A"]) step ip0 world0) = Ok (Enum ABORT) /\
  fst (execute (env_typed ["2"]) step ip0 world0) = Ok (Str "2") /\
  fst (execute (env_typed ["9"]) step ip0 world0) = Ok (Enum FAILURE) /\
  fst (execute (env_typed []) step ip0 world0) = Ok (Enum ABORT) /\
  log (snd (execute (env_typed ["2"]) step ip0 world0)) = [].
Proof.
  intros step.
  pose proof (fun lines =>
    select_step_outcomes (env_typed lines) ip0 "Select Dropoff"
      select_dropoff_map world0) as H.
  split; [|split; [|split; [|split; [|split]]]].
  - apply (proj1 (H [" S "]) " S "); reflexivity.
  - apply (proj1 (proj2 (H ["A"])) "A"); reflexivity.
  - apply (proj1 (proj2 (proj2 (H ["2"]))) "2");
      [reflexivity | discriminate | discriminate |].
    exists "Front Dropoff". vm_compute. reflexivity.
  - apply (proj1 (proj2 (proj2 (proj2 (H ["9"])))) "9");
      [reflexivity | discriminate | discriminate |].
    vm_compute. reflexivity.
  - apply (proj1 (proj2 (proj2 (proj2 (proj2 (H [])))))).
    left. reflexivity.
  - apply (proj1 (proj2 (proj2 (proj2 (proj2 (proj2 (H ["2"]))))))).
Defined.

(** The registered selection step, operator typing "3". *)
Lemma builtin_selection_resolves_witness :
  exists dropoff_state_name factory,
    in_dropoff_mapping (Str "3") = Some dropoff_state_name /\
    create_state_registry !! dropoff_state_name = Some factory.
Proof.
  apply (proj2 (proj2 builtin_selection_resolves)
           (env_typed ["3"]) ip0 world0 "3").
  vm_compute. reflexivity.
Defined.

(** The sequence of [main] with one misspelt name. *)
Lemma add_states_skips_unknown_witness :
  let out := add_states_from_sequence (machine ip0)
               ["Home"; "LeftPickUp"; "Wait"] world0 in
  fst out = Ok tt /\
  map oid (states (snd out)) = [0; 1] /\
  log (snd out) = [EvWarnUnknown "LeftPickUp"].
Proof.
  intros out.
  destruct (add_states_skips_unknown (machine ip0)
              ["Home"; "LeftPickUp"; "Wait"] world0) as (H1 & H2 & H3 & _).
  split; [exact H1|]. split.
  - fold out in H2. rewrite H2. vm_compute. reflexivity.
  - fold out in H3. rewrite H3. vm_compute. reflexivity.
Defined.

(** Selecting dropoff "2" at the head of the sequence SelectDropoff, Home:
    the new Front Dropoff object 2 lands between objects 0 and 1. *)
Lemma select_key_injects_witness :
  let env := env_typed ["2"] in
  let w := built ["SelectDropoff"; "Home"] in
  let out := loop_body env (machine ip0) 0%Z w in
  fst out = Ok (Next 1%Z) /\
  map oid (states (snd out)) = [0; 2; 1] /\
  length (states (snd out)) = 3 /\
  ~ In 2 (executed (log (snd out))).
Proof.
  intros env w out.
  set (state := mkObj 0
         (DropoffSelectionState "Select Dropoff" select_dropoff_map)).
  set (factory := fun _ : unit =>
         PoseState "Front Dropoff" FRONT_DROPOFF_POSES 255).
  set (w1 := snd (execute env (ostate state) ip0 (started w 0))).
  destruct (select_key_injects env (machine ip0) 0%Z w w1 state
              "2" "FrontDropoff" factory)
    as (H1 & H2 & H3 & _ & _ & _ & _ & _ & H9 & _).
  - split; vm_compute; repeat constructor.
  - vm_compute. split; [discriminate | reflexivity].
  - vm_compute. reflexivity.
  - vm_compute. reflexivity.
  - vm_compute. reflexivity.
  - vm_compute. reflexivity.
  - fold out in H1, H2, H3, H9.
    split; [exact H1|]. split; [rewrite H2; vm_compute; reflexivity|].
    split; [rewrite H3; vm_compute; reflexivity|]. exact H9.
Defined.

(** After Home, Wait: cursor -1 executes object 1 (Wait, the last of two),
    and from cursor -3 the run ends with IndexError. *)
Lemma negative_cursor_wraps_or_raises_witness :
  let env := env_typed ["r"; "r"] in
  let w := built ["Home"; "Wait"] in
  executed (log (snd (loop_body env (machine ip0) (-1)%Z w))) = [1] /\
  fst (guarded (while_loop env (machine ip0) 1 (-3)%Z) w) = Raise IndexError.
Proof.
  intros env w. split.
  - destruct (proj1 (negative_cursor_wraps_or_raises env (machine ip0)
                       (-1)%Z w ltac:(lia)))
      as (state & Hs & _ & Hex & _).
    + vm_compute. discriminate.
    + rewrite Hex. vm_compute in Hs. injection Hs as <-. reflexivity.
  - rewrite (proj2 (negative_cursor_wraps_or_raises env (machine ip0)
                      (-3)%Z w ltac:(lia))).
    + reflexivity.
    + vm_compute. reflexivity.
Defined.

(** ** Instances of the further properties *)

Lemma wait_step_outcomes_witness :
  let step := WaitForInputState "Wait For Input" in
  fst (execute (env_typed [" R "]) step ip0 world0) = Ok (Str "REPEAT") /\
  fst (execute (env_typed [""]) step ip0 world0) = Ok (Enum SUCCESS) /\
  fst (execute (env_typed []) step ip0 world0) = Ok (Enum ABORT).
Proof.
  intros step.
  pose proof (fun lines =>
    wait_step_outcomes (env_typed lines) ip0 "Wait For Input" world0) as H.
  split; [|split].
  - apply (proj1 (H [" R "]) " R "); reflexivity.
  - apply (proj1 (proj2 (H [""])) ""); [reflexivity | discriminate].
  - apply (proj1 (proj2 (proj2 (H [])))). left. reflexivity.
Defined.

Lemma select_step_returns_own_key_witness :
  is_Some (select_dropoff_map !! "3") /\ "3" <> "REPEAT".
Proof.
  destruct (select_step_returns_own_key (env_typed ["3 "]) ip0
              "Select Dropoff" select_dropoff_map world0 "3")
    as (_ & H1 & _ & _ & _ & H2).
  - vm_compute. reflexivity.
  - split; assumption.
Defined.


(** A selection step over the key "5", which [dropoff_mapping] does not
    have: the operator's valid choice ends the run as Failed. *)
Lemma fatal_outcome_ends_run_witness :
  let env := env_typed ["5"] in
  let w := snd (add_states_from_sequence machine_own_key ["Pick"] world0) in
  fst (guarded (while_loop env machine_own_key 1 0%Z) w) = Ok (Some Failed).
Proof.
  intros env w.
  set (state := mkObj 0 (DropoffSelectionState "Pick" (dict_of [("5", "Fifth")]))).
  set (w1 := snd (execute env (ostate state) ip0 (started w 0))).
  rewrite (fatal_outcome_ends_run env machine_own_key 0%Z w w1 state
             (Str "5") 0).
  - reflexivity.
  - vm_compute. reflexivity.
  - vm_compute. reflexivity.
  - right. right. exists "5". split; [reflexivity|].
    split; [discriminate | vm_compute; reflexivity].
Defined.

Lemma unregistered_target_raises_witness :
  let env := env_typed ["1"] in
  let w := snd (add_states_from_sequence machine_select_only
                  ["SelectDropoff"] world0) in
  fst (guarded (while_loop env machine_select_only 1 0%Z) w) = Raise KeyError.
Proof.
  intros env w.
  set (state := mkObj 0
         (DropoffSelectionState "Select Dropoff" select_dropoff_map)).
  set (w1 := snd (execute env (ostate state) ip0 (started w 0))).
  destruct (unregistered_target_raises env machine_select_only 0%Z w w1
              state "1" "MiddleDropoff" 0) as [H _].
  - vm_compute. reflexivity.
  - vm_compute. reflexivity.
  - vm_compute. reflexivity.
  - vm_compute. reflexivity.
  - rewrite H. reflexivity.
Defined.



Lemma every_name_added_or_reported_witness :
  let out := add_states_from_sequence (machine ip0) main_sequence world0 in
  log (snd out) = [] /\ length (states (snd out)) = 5.
Proof.
  intros out.
  destruct (proj2 (every_name_added_or_reported (machine ip0)
                     main_sequence world0)) as [H1 H2].
  - intros n Hn. simpl in Hn.
    destruct Hn as [<- | [<- | [<- | [<- | [<- | []]]]]];
      eexists; vm_compute; reflexivity.
  - split; [exact H1 | exact H2].
Defined.

Lemma unknown_only_sequence_completes_witness :
  let out := (add_states_from_sequence (machine ip0) ["Nope"; "home"] ;;;
              run (env_typed []) (machine ip0) 0) world0 in
  fst out = Ok (Some Completed) /\
  log (snd out) = [EvWarnUnknown "Nope"; EvWarnUnknown "home"; EvClose].
Proof.
  intros out.
  destruct (unknown_only_sequence_completes (env_typed []) (machine ip0)
              ["Nope"; "home"] 0 world0) as (H1 & H2 & _).
  - reflexivity.
  - intros n Hn. simpl in Hn.
    destruct Hn as [<- | [<- | []]]; vm_compute; reflexivity.
  - split; [exact H1 | exact H2].
Defined.

(** One pass from the head of SelectDropoff, Home with the operator typing
    "2": the loop is at cursor 1 with three steps. *)
Lemma reach_after_selection :
  let env := env_typed ["2"] in
  let w0 := built ["SelectDropoff"; "Home"] in
  reachable env (machine ip0) w0
    (snd (loop_body env (machine ip0) 0%Z w0)) 1%Z.
Proof.
  intros env w0.
  eapply reach_step with (w := w0) (i := 0%Z).
  - apply reach_start.
  - vm_compute. reflexivity.
  - vm_compute. reflexivity.
Defined.

Lemma run_keeps_steps_in_order_witness :
  let env := env_typed ["2"] in
  let w0 := built ["SelectDropoff"; "Home"] in
  states w0 `sublist_of` states (snd (loop_body env (machine ip0) 0%Z w0)).
Proof.
  intros env w0.
  exact (run_keeps_steps_in_order env (machine ip0) w0 _ 1%Z
           reach_after_selection).
Defined.

Lemma step_objects_are_distinct_witness :
  let env := env_typed ["2"] in
  let w0 := built ["SelectDropoff"; "Home"] in
  List.NoDup (map oid (states (snd (loop_body env (machine ip0) 0%Z w0)))).
Proof.
  intros env w0.
  exact (step_objects_are_distinct env (machine ip0)
           ["SelectDropoff"; "Home"] _ 1%Z reach_after_selection).
Defined.

Lemma reachable_bounds_witness :
  let env := env_typed ["2"] in
  let w0 := built ["SelectDropoff"; "Home"] in
  let w := snd (loop_body env (machine ip0) 0%Z w0) in
  (- len_states w - 2 <= 1 <= len_states w)%Z /\
  length (states w0) <= length (states w).
Proof.
  intros env w0 w.
  exact (reachable_bounds env (machine ip0) w0 w 1%Z reach_after_selection).
Defined.



